(** * A shallow embedding of the nand2tetris toolchain (hackasm, hacktrans, jack_compiler)

    The Rust sources are modelled function by function:
    - [Assembler]    : projects/06/hackasm/src/main.rs
    - [VMTranslator] : projects/hacktrans/src/{main.rs,command.rs}
    - [Tokenizer]    : projects/jack_compiler/src/tokenizer.rs
    - [Parser]       : projects/jack_compiler/src/parser.rs

    Rust [String]/[&str] become [string], [char] becomes [ascii] (all inputs
    considered are ASCII), [HashMap<String, _>] becomes [gmap string _], and a
    [panic!]/[unwrap] on [None]/[Err] becomes an explicit [Panic] outcome. *)

From Stdlib Require Import Ascii String ZArith List Lia.
From stdpp Require Import base gmap strings list pretty.
Import ListNotations.
Open Scope string_scope.
(** stdpp makes [String.append] [simpl never]; the proofs below compute with it. *)
#[local] Arguments String.append : simpl nomatch.

(** ** Shared helpers *)

(** Outcome of a Rust computation that may panic. *)
Inductive outcome (A : Type) : Type :=
| Done (a : A)
| Panic.
Arguments Done {A} a.
Arguments Panic {A}.

Definition bind_out {A B} (m : outcome A) (k : A -> outcome B) : outcome B :=
  match m with Done a => k a | Panic => Panic end.

(** [Result<T, E>] *)
Inductive result (T E : Type) : Type :=
| Ok (t : T)
| Err (e : E).
Arguments Ok {T E} t.
Arguments Err {T E} e.

(** [char::is_whitespace] restricted to ASCII: tab, LF, VT, FF, CR, space. *)
Definition is_whitespace (c : ascii) : bool :=
  let n := nat_of_ascii c in
  ((9 <=? n) && (n <=? 13))%nat || (n =? 32)%nat.

(** [char::is_ascii_digit] *)
Definition is_ascii_digit (c : ascii) : bool :=
  let n := nat_of_ascii c in ((48 <=? n) && (n <=? 57))%nat.

Definition digit_value (c : ascii) : Z := (Z.of_nat (nat_of_ascii c) - 48)%Z.

Definition rev_string (s : string) : string :=
  string_of_list_ascii (rev (list_ascii_of_string s)).

(** The accumulation loop of [from_str] for an unsigned integer type whose
    maximum is [max]: every character must be a digit and every intermediate
    value [acc * 10 + d] is checked against [max] ([checked_mul]/[checked_add]). *)
Fixpoint uint_digits (max acc : Z) (s : string) : option Z :=
  match s with
  | EmptyString => Some acc
  | String c s' =>
      if is_ascii_digit c then
        let v := (acc * 10 + digit_value c)%Z in
        if (v <=? max)%Z then uint_digits max v s' else None
      else None
  end.

(** [str::parse::<uN>]: empty input is an error, a lone sign is an error,
    a leading [+] is skipped. *)
Definition parse_unsigned (max : Z) (s : string) : option Z :=
  match s with
  | EmptyString => None
  | String "+" EmptyString => None
  | String "-" EmptyString => None
  | String "+" rest => uint_digits max 0%Z rest
  | _ => uint_digits max 0%Z s
  end.

Definition parse_u16 : string -> option Z := parse_unsigned 65535%Z.
Definition parse_u32 : string -> option Z := parse_unsigned 4294967295%Z.

(** [str::split_whitespace] *)
Fixpoint split_ws_aux (cur : string) (s : string) : list string :=
  match s with
  | EmptyString => match cur with EmptyString => [] | _ => [rev_string cur] end
  | String x s' =>
      if is_whitespace x then
        match cur with
        | EmptyString => split_ws_aux EmptyString s'
        | _ => rev_string cur :: split_ws_aux EmptyString s'
        end
      else split_ws_aux (String x cur) s'
  end.
Definition split_whitespace (s : string) : list string := split_ws_aux EmptyString s.

(** [str::split(c)] : the pieces between occurrences of [c]; always at
    least one piece. *)
Fixpoint split_char (c : ascii) (s : string) : list string :=
  match s with
  | EmptyString => [EmptyString]
  | String x s' =>
      if Ascii.eqb x c then EmptyString :: split_char c s'
      else match split_char c s' with
           | [] => [String x EmptyString]
           | p :: ps => String x p :: ps
           end
  end.

(** [str::find(c).is_some()] for a single character. *)
Fixpoint has_char (c : ascii) (s : string) : bool :=
  match s with
  | EmptyString => false
  | String x s' => Ascii.eqb x c || has_char c s'
  end.

(** Prefix of [s] before the first occurrence of ["//"] ([remove_comment]). *)
Fixpoint remove_comment (s : string) : string :=
  match s with
  | String "/" (String "/" _) => EmptyString
  | String x s' => String x (remove_comment s')
  | EmptyString => EmptyString
  end.

Fixpoint trim_start (s : string) : string :=
  match s with
  | String x s' => if is_whitespace x then trim_start s' else s
  | EmptyString => EmptyString
  end.

(** [str::trim] *)
Definition trim (s : string) : string :=
  rev_string (trim_start (rev_string (trim_start s))).

(** Vector indexing [v[i]]: panics out of range. *)
Definition index {A} (l : list A) (i : nat) : outcome A :=
  match nth_error l i with Some a => Done a | None => Panic end.

(** Formatting of an unsigned integer with [{}]. *)
Definition fmt_nat (n : nat) : string := pretty n.
Definition fmt_Z (z : Z) : string := pretty (Z.to_N z).

(** ================================================================ *)
(** ** Assembler : projects/06/hackasm/src/main.rs *)

Module Assembler.
Local Open Scope Z_scope.

(** [PREDEFINED_SYMBOL], as written in the source (23 entries). *)
Definition PREDEFINED_SYMBOL : list (string * Z) :=
  [ ("SP", 0); ("LCL", 1); ("ARG", 2); ("THIS", 3); ("THAT", 4);
    ("R0", 0); ("R1", 1); ("R2", 2); ("R3", 3); ("R4", 4); ("R5", 5);
    ("R6", 6); ("R7", 7); ("R7", 8); ("R9", 9); ("R10", 10); ("R11", 11);
    ("R12", 12); ("R13", 13); ("R14", 14); ("R15", 15);
    ("SCREEN", 16384); ("KBD", 24576) ].

(** [iter().cloned().collect::<HashMap<_,_>>()]: entries are inserted in
    order, a later entry overwrites an earlier one with the same key. *)
Definition collect_map (l : list (string * Z)) : gmap string Z :=
  fold_left (fun m kv => <[kv.1 := kv.2]> m) l ∅.

(** [init_symbol_table]: its body is empty, the table is left as is. *)
Definition init_symbol_table (table : gmap string Z) (reader : list string)
  : gmap string Z := table.

(** The table [main] hands to [parse_line]. *)
Definition main_symbol_table (reader : list string) : gmap string Z :=
  init_symbol_table (collect_map PREDEFINED_SYMBOL) reader.

Record CInstruction := mkC {
  comp : string;
  dest : option string;
  jump : option string;
}.

Inductive Instruction :=
| AInst (value : Z)
| CInst (c : CInstruction).

Inductive LineType := Blank | AInstruction | CInstructionT | Label.

(** The [comp] arm of [CInstruction::to_binary_text]: a [match] on [&str],
    i.e. the arms are tried in source order. *)
Definition comp_bits (c : string) : option string :=
  if String.eqb c "0" then Some "0101010" else
  if String.eqb c "1" then Some "0111111" else
  if String.eqb c "-1" then Some "0111010" else
  if String.eqb c "D" then Some "0001100" else
  if String.eqb c "A" then Some "0110000" else
  if String.eqb c "M" then Some "1110000" else
  if String.eqb c "!D" then Some "0001101" else
  if String.eqb c "!A" then Some "0110001" else
  if String.eqb c "!M" then Some "1110001" else
  if String.eqb c "-D" then Some "0001111" else
  if String.eqb c "-A" then Some "0110011" else
  if String.eqb c "-M" then Some "1110011" else
  if String.eqb c "D+1" then Some "0011111" else
  if String.eqb c "A+1" then Some "0110111" else
  if String.eqb c "M+1" then Some "1110111" else
  if String.eqb c "D-1" then Some "0001110" else
  if String.eqb c "A-1" then Some "0110010" else
  if String.eqb c "M-1" then Some "1110010" else
  if String.eqb c "D+A" then Some "0000010" else
  if String.eqb c "D+M" then Some "1000010" else
  if String.eqb c "D-A" then Some "0010011" else
  if String.eqb c "D-M" then Some "1010011" else
  if String.eqb c "A-D" then Some "0000111" else
  if String.eqb c "M-D" then Some "1000111" else
  if String.eqb c "D&A" then Some "0000000" else
  if String.eqb c "D&M" then Some "1000000" else
  if String.eqb c "D|A" then Some "0010101" else
  if String.eqb c "D|M" then Some "1010101" else
  None.

Definition dest_bits (d : option string) : option string :=
  match d with
  | None => Some "000"
  | Some d =>
      if String.eqb d "M" then Some "001" else
      if String.eqb d "D" then Some "010" else
      if String.eqb d "MD" then Some "011" else
      if String.eqb d "A" then Some "100" else
      if String.eqb d "AM" then Some "101" else
      if String.eqb d "AD" then Some "110" else
      if String.eqb d "AMD" then Some "111" else None
  end.

Definition NL : string := String (ascii_of_nat 10) EmptyString.

Definition jump_bits (j : option string) : option string :=
  match j with
  | None => Some ("000" ++ NL)
  | Some j =>
      if String.eqb j "JGT" then Some ("001" ++ NL) else
      if String.eqb j "JEQ" then Some ("010" ++ NL) else
      if String.eqb j "JGE" then Some ("011" ++ NL) else
      if String.eqb j "JLT" then Some ("100" ++ NL) else
      if String.eqb j "JNE" then Some ("101" ++ NL) else
      if String.eqb j "JLE" then Some ("110" ++ NL) else
      if String.eqb j "JMP" then Some ("111" ++ NL) else None
  end.

(** [impl Instruction for CInstruction :: to_binary_text] *)
Definition c_to_binary_text (ci : CInstruction) : result string string :=
  match comp_bits ci.(comp) with
  | None => Err "Unknown comp"
  | Some cb =>
      match dest_bits ci.(dest) with
      | None => Err "Unknown dest"
      | Some db =>
          match jump_bits ci.(jump) with
          | None => Err "Unknown jump"
          | Some jb => Ok ("111" ++ cb ++ db ++ jb)
          end
      end
  end.

(** [CInstruction::new]; the indexing [v[i]] of the split parts is
    [index], which panics out of range ([comp_jmp[1]] when the part after
    the first [=] holds no [;]). *)
Definition c_new (line : string) : outcome CInstruction :=
  let dest_pos := has_char "=" line in
  let jmp_pos := has_char ";" line in
  if negb dest_pos then
    if negb jmp_pos then Done (mkC line None None)
    else let comp_jmp := split_char ";" line in
         bind_out (index comp_jmp 0%nat) (fun c =>
         bind_out (index comp_jmp 1%nat) (fun j =>
         Done (mkC c None (Some j))))
  else
    if negb jmp_pos then
      let dest_comp := split_char "=" line in
      bind_out (index dest_comp 1%nat) (fun c =>
      bind_out (index dest_comp 0%nat) (fun d =>
      Done (mkC c (Some d) None)))
    else
      let dest_comp_jmp := split_char "=" line in
      bind_out (index dest_comp_jmp 1%nat) (fun dc =>
      let comp_jmp := split_char ";" dc in
      bind_out (index comp_jmp 0%nat) (fun c =>
      bind_out (index dest_comp_jmp 0%nat) (fun d =>
      bind_out (index comp_jmp 1%nat) (fun j =>
      Done (mkC c (Some d) (Some j)))))).

(** [AInstruction::new]: a numeric operand is used as is, a symbol is
    looked up and the lookup is [unwrap]ped. *)
Definition a_new (line : string) (symbol_table : gmap string Z) : outcome Z :=
  bind_out (index (split_char "@" line) 1%nat) (fun address_or_symbol =>
  match parse_u16 address_or_symbol with
  | Some v => Done v
  | None =>
      match symbol_table !! address_or_symbol with
      | Some a => Done a
      | None => Panic
      end
  end).

(** [fmt "{:016b}\n"] of the A-instruction value. *)
Fixpoint bin_digits (k : nat) (v : Z) : string :=
  match k with
  | O => EmptyString
  | S k' => bin_digits k' (Z.shiftr v 1) ++ (if Z.testbit v 0 then "1" else "0")
  end.

Definition a_to_binary_text (v : Z) : result string string :=
  Ok (bin_digits 16 v ++ NL).

Definition to_binary_text (i : Instruction) : result string string :=
  match i with AInst v => a_to_binary_text v | CInst c => c_to_binary_text c end.

(** [parse_line]: returns the line type and the instructions pushed. *)
Definition parse_line (line : string) (symbol_table : gmap string Z)
  : outcome (LineType * list Instruction) :=
  let code := remove_comment (trim line) in
  match code with
  | EmptyString => Done (Blank, [])
  | String "@" _ =>
      bind_out (a_new code symbol_table) (fun v => Done (AInstruction, [AInst v]))
  | String "(" _ => Done (Label, [])
  | _ => bind_out (c_new code) (fun ci => Done (CInstructionT, [CInst ci]))
  end.

(** The loop of [main]: every line is parsed against the same table. *)
Fixpoint parse_lines (lines : list string) (table : gmap string Z)
  : outcome (list Instruction) :=
  match lines with
  | [] => Done []
  | l :: ls =>
      bind_out (parse_line l table) (fun '(_, is) =>
      bind_out (parse_lines ls table) (fun rest => Done (app is rest)))
  end.

Definition assemble (lines : list string) : outcome (list Instruction) :=
  parse_lines lines (main_symbol_table lines).

(** Specification side, from the tables of the spec (section 6.3), to be
    compared with [comp_bits], [dest_bits] and [jump_bits] above. *)
Definition hack_comp_table : list (string * string) :=
  [ ("0", "0101010"); ("1", "0111111"); ("-1", "0111010"); ("D", "0001100");
    ("A", "0110000"); ("M", "1110000"); ("!D", "0001101"); ("!A", "0110001");
    ("!M", "1110001"); ("-D", "0001111"); ("-A", "0110011"); ("-M", "1110011");
    ("D+A", "0000010"); ("D+M", "1000010"); ("D-A", "0010011"); ("D-M", "1010011");
    ("A-D", "0000111"); ("M-D", "1000111"); ("D&A", "0000000"); ("D&M", "1000000");
    ("D|A", "0010101"); ("D|M", "1010101"); ("D+1", "0011111"); ("A+1", "0110111");
    ("M+1", "1110111"); ("D-1", "0001110"); ("A-1", "0110010"); ("M-1", "1110010") ].

Definition hack_dest_table : list (string * string) :=
  [ ("M", "001"); ("D", "010"); ("MD", "011"); ("A", "100"); ("AM", "101");
    ("AD", "110"); ("AMD", "111") ].

Definition hack_jump_table : list (string * string) :=
  [ ("JGT", "001"); ("JEQ", "010"); ("JGE", "011"); ("JLT", "100");
    ("JNE", "101"); ("JLE", "110"); ("JMP", "111") ].

Fixpoint assoc (k : string) (l : list (string * string)) : option string :=
  match l with
  | [] => None
  | (k', v) :: l' => if String.eqb k k' then Some v else assoc k l'
  end.

(** A mnemonic that is absent ([None]) encodes as [000]. *)
Definition spec_field (tbl : list (string * string)) (m : option string) : option string :=
  match m with None => Some "000" | Some x => assoc x tbl end.

(** The 16-bit word [111 | comp | dest | jump] of the spec, or [None] when
    a mnemonic is unknown. *)
Definition spec_c_word (ci : CInstruction) : option string :=
  match assoc ci.(comp) hack_comp_table, spec_field hack_dest_table ci.(dest),
        spec_field hack_jump_table ci.(jump) with
  | Some cb, Some db, Some jb => Some ("111" ++ cb ++ db ++ jb)
  | _, _, _ => None
  end.

(** Statement helpers, not in the source. The Hack text [dest=comp;jump] of
    a C-instruction, the [dest=] and [;jump] parts only when present (the
    form [CInstruction::new] reads), and the value of a binary numeral,
    most significant digit first (the reading of [{:016b}]). *)
Definition c_instruction_text (ci : CInstruction) : string :=
  (match ci.(dest) with Some d => d ++ "=" | None => "" end) ++ ci.(comp) ++
  (match ci.(jump) with Some j => ";" ++ j | None => "" end).



End Assembler.

(** ================================================================ *)
(** ** VM translator : projects/hacktrans/src/{main.rs,command.rs} *)

Module VMTranslator.
Local Open Scope Z_scope.

Inductive ArithmeticType := Add | Sub | Neg | Eq | Gt | Lt | And | Or | Not.

Inductive CommandType :=
| CArithmetic | Push | Pop | CLabel | GoTo | If | CFunction | Return | Call.

Inductive SegmentType :=
| Argument | Local | Static | Constant | This | That | Pointer | Temp.

(** [type CommandID = u32] *)
Definition CommandID := Z.
Definition U32_MAX : Z := 4294967295.
Definition NULL_ID : CommandID := 0.

(** [struct Counter] *)
Record Counter := mkCounter { eq : CommandID; gt : CommandID; lt : CommandID }.
Definition fresh_counter : Counter := mkCounter 0 0 0.

(** The four command structs behind [Box<dyn Command>]. *)
Inductive Command :=
| Arithmetic (arithmetic : ArithmeticType) (id : CommandID)
| MemoryAccess (command : CommandType) (segment : SegmentType) (index : Z)
| ProgramFlow (command : CommandType) (symbol : string)
| Function (command : CommandType) (name : option string) (argument_num : option Z).

(** [struct Context] *)
Record Context := mkContext {
  prefix : string;
  function_name : string;
  function_count : Z;
}.

(** [counter.x += 1] on a [u32] (an overflow panics). *)
Definition incr (v : CommandID) : outcome CommandID :=
  if (v + 1 <=? U32_MAX)%Z then Done (v + 1)%Z else Panic.

Definition unwrap {A} (o : option A) : outcome A :=
  match o with Some a => Done a | None => Panic end.

(** [MemoryAccess::new] *)
Definition memory_access_new (command : CommandType) (segment index : string)
  : outcome Command :=
  let seg :=
    if String.eqb segment "argument" then Some Argument else
    if String.eqb segment "local" then Some Local else
    if String.eqb segment "static" then Some Static else
    if String.eqb segment "constant" then Some Constant else
    if String.eqb segment "this" then Some This else
    if String.eqb segment "that" then Some That else
    if String.eqb segment "temp" then Some Temp else
    if String.eqb segment "pointer" then Some Pointer else None in
  bind_out (unwrap seg) (fun seg =>
  bind_out (unwrap (parse_u32 index)) (fun idx =>
  Done (MemoryAccess command seg idx))).

(** [itr.next().unwrap()] *)
Definition next_word (itr : list string) : outcome (string * list string) :=
  match itr with w :: ws => Done (w, ws) | [] => Panic end.

(** [parse_line] of main.rs: the counter is incremented first, then its new
    value is the command's id ("0 is reserved for null"). *)
Definition parse_line (line : string) (counter : Counter)
  : outcome (option Command * Counter) :=
  let code := trim (remove_comment line) in
  match code with
  | EmptyString => Done (None, counter)
  | _ =>
  bind_out (next_word (split_whitespace code)) (fun '(command, itr) =>
  let arith a := Done (Some (Arithmetic a NULL_ID), counter) in
  if String.eqb command "push" then
    bind_out (next_word itr) (fun '(seg, itr) =>
    bind_out (next_word itr) (fun '(idx, _) =>
    bind_out (memory_access_new Push seg idx) (fun m => Done (Some m, counter))))
  else if String.eqb command "pop" then
    bind_out (next_word itr) (fun '(seg, itr) =>
    bind_out (next_word itr) (fun '(idx, _) =>
    bind_out (memory_access_new Pop seg idx) (fun m => Done (Some m, counter))))
  else if String.eqb command "add" then arith Add
  else if String.eqb command "sub" then arith Sub
  else if String.eqb command "neg" then arith Neg
  else if String.eqb command "eq" then
    bind_out (incr counter.(eq)) (fun k =>
    Done (Some (Arithmetic Eq k), mkCounter k counter.(gt) counter.(lt)))
  else if String.eqb command "gt" then
    bind_out (incr counter.(gt)) (fun k =>
    Done (Some (Arithmetic Gt k), mkCounter counter.(eq) k counter.(lt)))
  else if String.eqb command "lt" then
    bind_out (incr counter.(lt)) (fun k =>
    Done (Some (Arithmetic Lt k), mkCounter counter.(eq) counter.(gt) k))
  else if String.eqb command "and" then arith And
  else if String.eqb command "or" then arith Or
  else if String.eqb command "not" then arith Not
  else if String.eqb command "label" then
    bind_out (next_word itr) (fun '(l, _) => Done (Some (ProgramFlow CLabel l), counter))
  else if String.eqb command "goto" then
    bind_out (next_word itr) (fun '(l, _) => Done (Some (ProgramFlow GoTo l), counter))
  else if String.eqb command "if-goto" then
    bind_out (next_word itr) (fun '(l, _) => Done (Some (ProgramFlow If l), counter))
  else if String.eqb command "function" then
    bind_out (next_word itr) (fun '(f, itr) =>
    bind_out (next_word itr) (fun '(n, _) =>
    bind_out (unwrap (parse_u16 n)) (fun n =>
    Done (Some (Function CFunction (Some f) (Some n)), counter))))
  else if String.eqb command "return" then
    Done (Some (Function Return None None), counter)
  else if String.eqb command "call" then
    bind_out (next_word itr) (fun '(f, itr) =>
    bind_out (next_word itr) (fun '(n, _) =>
    bind_out (unwrap (parse_u16 n)) (fun n =>
    Done (Some (Function Call (Some f) (Some n)), counter))))
  else Done (None, counter))
  end.

(** The reading loop of [main]: every line of every file goes through
    [parse_line] with the one shared counter. *)
Fixpoint parse_lines (lines : list string) (counter : Counter)
  : outcome (list Command * Counter) :=
  match lines with
  | [] => Done ([], counter)
  | l :: ls =>
      bind_out (parse_line l counter) (fun '(cmd, counter') =>
      bind_out (parse_lines ls counter') (fun '(cmds, counter'') =>
      Done (match cmd with Some c => c :: cmds | None => cmds end, counter'')))
  end.

Definition LF : string := String (ascii_of_nat 10) EmptyString.

(** A multi-line Rust string literal: every line ends with a newline. *)
Fixpoint asm (ls : list string) : string :=
  match ls with [] => EmptyString | l :: ls' => l ++ LF ++ asm ls' end.

(** The [Eq], [Lt] and [Gt] arms of [Arithmetic::to_asm_text]. *)
Definition eq_asm (id : CommandID) : string :=
  let k := fmt_Z id in
  asm ["@SP"; "A=M"; "A=A-1"; "D=M"; "A=A-1"; "D=M-D"; "@IsEq." ++ k; "D;JEQ";
       "D=-1"; "(IsEq." ++ k ++ ")"; "@SP"; "A=M-1"; "A=A-1"; "M=!D"; "D=A+1";
       "@SP"; "M=D"].

Definition lt_asm (id : CommandID) : string :=
  let k := fmt_Z id in
  asm ["@SP"; "A=M"; "A=A-1"; "D=M"; "A=A-1"; "D=M-D"; "@IsGe." ++ k; "D;JGE";
       "D=-1"; "@WriteLtOutput." ++ k; "0;JMP"; "(IsGe." ++ k ++ ")"; "D=0";
       "(WriteLtOutput." ++ k ++ ")"; "@SP"; "A=M-1"; "A=A-1"; "M=D"; "D=A+1";
       "@SP"; "M=D"].

Definition gt_asm (id : CommandID) : string :=
  let k := fmt_Z id in
  asm ["@SP"; "A=M"; "A=A-1"; "D=M"; "A=A-1"; "D=M-D"; "@IsGt." ++ k; "D;JGT";
       "D=0"; "@WriteGtOutput." ++ k; "0;JMP"; "(IsGt." ++ k ++ ")"; "D=-1";
       "(WriteGtOutput." ++ k ++ ")"; "@SP"; "A=M-1"; "A=A-1"; "M=D"; "D=A+1";
       "@SP"; "M=D"].

Definition binary_asm (op : string) : string :=
  asm ["@SP"; "A=M"; "A=A-1"; "D=M"; "A=A-1"; op; "D=A+1"; "@SP"; "M=D"].

Definition unary_asm (op : string) : string :=
  asm ["@SP"; "A=M"; "A=A-1"; "D=M"; op; "D=A+1"; "@SP"; "M=D"].

(** [impl Command for Arithmetic :: to_asm_text] (the context is unused). *)
Definition arithmetic_to_asm_text (a : ArithmeticType) (id : CommandID)
  (_context : Context) : result string string :=
  match a with
  | Add => Ok (binary_asm "M=D+M")
  | Sub => Ok (binary_asm "M=M-D")
  | And => Ok (binary_asm "M=D&M")
  | Or => Ok (binary_asm "M=D|M")
  | Neg => Ok (unary_asm "M=-M")
  | Not => Ok (unary_asm "M=!M")
  | Eq => Ok (eq_asm id)
  | Lt => Ok (lt_asm id)
  | Gt => Ok (gt_asm id)
  end.

(** [impl Command for Function :: to_asm_text]. *)
Definition function_to_asm_text (command : CommandType) (name : option string)
  (argument_num : option Z) (context : Context) : outcome (result string string) :=
  match command with
  | CFunction =>
      bind_out (unwrap name) (fun n =>
      bind_out (unwrap argument_num) (fun k =>
      Done (Ok (asm ["(" ++ n ++ ")"; "@SP"; "A=M"] ++
                String.concat "" (repeat (asm ["M=0"; "A=A+1"]) (Z.to_nat k)) ++
                asm ["D=A"; "@SP"; "M=D"]))))
  | Return =>
      let ra := context.(prefix) ++ ".ret" in
      Done (Ok (asm ["@LCL"; "D=M"; "@5"; "A=D-A"; "D=M"; "@" ++ ra; "M=D";
                     "@SP"; "A=M-1"; "D=M"; "@ARG"; "A=M"; "M=D";
                     "// reposition stack pointer"; "D=A+1"; "@SP"; "M=D";
                     "// restore segment address"; "@LCL"; "A=M-1"; "D=M";
                     "@THAT"; "M=D"; "@LCL"; "A=M-1"; "A=A-1"; "D=M"; "@THIS";
                     "M=D"; "@LCL"; "D=M"; "@3"; "A=D-A"; "D=M"; "@ARG"; "M=D";
                     "@LCL"; "D=M"; "@4"; "A=D-A"; "D=M"; "@LCL"; "M=D";
                     "// goto return address"; "@" ++ ra; "A=M;JMP"]))
  | Call =>
      (* let return_label = format!(""); ... let str = format!("",); Ok(str) *)
      Done (Ok "")
  | _other => Done (Err "Unsupported Function command")
  end.

(** Selecting the comparison commands of one kind and their ids. *)
Definition id_of_kind (a : ArithmeticType) (c : Command) : option CommandID :=
  match a, c with
  | Eq, Arithmetic Eq k | Gt, Arithmetic Gt k | Lt, Arithmetic Lt k => Some k
  | _, _ => None
  end.

Definition ids_of (a : ArithmeticType) (cmds : list Command) : list CommandID :=
  omap (id_of_kind a) cmds.

Definition counter_of (a : ArithmeticType) (c : Counter) : CommandID :=
  match a with Eq => c.(eq) | Gt => c.(gt) | Lt => c.(lt) | _ => 0 end.

Definition is_comparison (a : ArithmeticType) : Prop := a = Eq \/ a = Gt \/ a = Lt.

(** The jump labels written by [eq_asm], [gt_asm] and [lt_asm] for id [k]. *)
Definition comparison_labels (a : ArithmeticType) (k : CommandID) : list string :=
  match a with
  | Eq => ["IsEq." ++ fmt_Z k]
  | Gt => ["IsGt." ++ fmt_Z k; "WriteGtOutput." ++ fmt_Z k]
  | Lt => ["IsGe." ++ fmt_Z k; "WriteLtOutput." ++ fmt_Z k]
  | _ => []
  end.

(** [{:?}] of a [CommandType] and of a [SegmentType] (derived [Debug]). *)
Definition command_type_debug (c : CommandType) : string :=
  match c with
  | CArithmetic => "Arithmetic" | Push => "Push" | Pop => "Pop"
  | CLabel => "Label" | GoTo => "GoTo" | If => "If"
  | CFunction => "Function" | Return => "Return" | Call => "Call"
  end.

Definition segment_type_debug (s : SegmentType) : string :=
  match s with
  | Argument => "Argument" | Local => "Local" | Static => "Static"
  | Constant => "Constant" | This => "This" | That => "That"
  | Pointer => "Pointer" | Temp => "Temp"
  end.

(** The push template shared by the [Local], [Argument], [This], [That],
    [Temp] and [Pointer] arms: [base] is the segment's base line and [addr]
    the address computation ([A=D+M] for a pointer, [A=D+A] for a fixed base). *)
Definition push_segment_asm (i base addr : string) : string :=
  asm ["@" ++ i; "D=A"; base; addr; "D=M"; "@SP"; "A=M"; "M=D"; "@SP"; "M=M+1"].

(** The pop template of the same arms: the target address is stored in
    [tmp] before the stack is popped. *)
Definition pop_segment_asm (i base addr tmp : string) : string :=
  asm ["@" ++ i; "D=A"; base; addr; "@" ++ tmp; "M=D"; "@SP"; "AM=M-1"; "D=M";
       "@" ++ tmp; "A=M"; "M=D"].

(** [impl Command for MemoryAccess :: to_asm_text] *)
Definition memory_access_to_asm_text (command : CommandType) (segment : SegmentType)
  (index : Z) (context : Context) : result string string :=
  let tmp_symbol := context.(prefix) ++ ".tmp" in
  let static_symbol := context.(prefix) ++ "." ++ fmt_Z index in
  let i := fmt_Z index in
  match command with
  | Push =>
      match segment with
      | Constant => Ok (asm ["@" ++ i; "D=A"; "@SP"; "A=M"; "M=D"; "@SP"; "M=M+1"])
      | Local => Ok (push_segment_asm i "@LCL" "A=D+M")
      | Argument => Ok (push_segment_asm i "@ARG" "A=D+M")
      | This => Ok (push_segment_asm i "@THIS" "A=D+M")
      | That => Ok (push_segment_asm i "@THAT" "A=D+M")
      | Temp => Ok (push_segment_asm i "@R5" "A=D+A")
      | Pointer => Ok (push_segment_asm i "@R3" "A=D+A")
      | Static => Ok (asm ["@" ++ static_symbol; "D=M"; "@SP"; "A=M"; "M=D"; "@SP"; "M=M+1"])
      end
  | Pop =>
      match segment with
      | Local => Ok (pop_segment_asm i "@LCL" "D=D+M" tmp_symbol)
      | Argument => Ok (pop_segment_asm i "@ARG" "D=D+M" tmp_symbol)
      | This => Ok (pop_segment_asm i "@THIS" "D=D+M" tmp_symbol)
      | That => Ok (pop_segment_asm i "@THAT" "D=D+M" tmp_symbol)
      | Temp => Ok (pop_segment_asm i "@R5" "D=D+A" tmp_symbol)
      | Pointer => Ok (pop_segment_asm i "@R3" "D=D+A" tmp_symbol)
      | Static => Ok (asm ["@SP"; "AM=M-1"; "D=M"; "@" ++ static_symbol; "M=D"])
      | _other => Err ("Unsupported memory segment for Pop: " ++ segment_type_debug _other)
      end
  | _other => Err ("Unsupported MemoryAccessCommand: " ++ command_type_debug _other)
  end.

(** [impl Command for ProgramFlow :: to_asm_text] *)
Definition program_flow_to_asm_text (command : CommandType) (symbol : string)
  (context : Context) : result string string :=
  let target_label := context.(prefix) ++ "." ++ symbol in
  match command with
  | CLabel => Ok (asm ["(" ++ target_label ++ ")"])
  | If => Ok (asm ["@SP"; "AM=M-1"; "D=M"; "@" ++ target_label; "D;JNE"])
  | GoTo => Ok (asm ["@" ++ target_label; "0;JMP"])
  | _other => Err ("Unsupported CommandType: " ++ command_type_debug _other)
  end.

(** [cmd.to_asm_text(&context)] through [Box<dyn Command>]. *)
Definition to_asm_text (c : Command) (context : Context) : outcome (result string string) :=
  match c with
  | Arithmetic a id => Done (arithmetic_to_asm_text a id context)
  | MemoryAccess cmd seg idx => Done (memory_access_to_asm_text cmd seg idx context)
  | ProgramFlow cmd sym => Done (program_flow_to_asm_text cmd sym context)
  | Function cmd name n => function_to_asm_text cmd name n context
  end.

End VMTranslator.

(** ================================================================ *)
(** ** Tokenizer : projects/jack_compiler/src/tokenizer.rs *)

Module Tokenizer.
Local Open Scope Z_scope.

(** [enum Token] with the payload of each struct. *)
Inductive Token :=
| Keyword (value : string)
| Symbol (value : ascii)
| Identifier (value : string)
| IntegerConstant (value : Z)
| StringConstant (value : string).

Definition SYMBOL_LIST : list ascii :=
  ["}"; "{"; ")"; "("; "["; "]"; "."; ","; ";"; "+"; "-"; "*"; "/"; "&"; "|";
   "<"; ">"; "="; "~"]%char.

Definition KEYWORD_LIST : list string :=
  ["class"; "constructor"; "function"; "method"; "field"; "static"; "var";
   "int"; "char"; "boolean"; "void"; "true"; "false"; "null"; "this"; "let";
   "do"; "if"; "else"; "while"; "return"].

(** The double-quote character (code 34). *)
Definition QUOTE : ascii := Ascii.ascii_of_nat 34.

Definition is_symbol (c : ascii) : bool := existsb (Ascii.eqb c) SYMBOL_LIST.
Definition is_keyword (w : string) : bool := existsb (String.eqb w) KEYWORD_LIST.

(** [struct CommentState] *)
Record CommentState := mkCS {
  in_region : bool;
  next_maybe_line_begin : bool;
  next_maybe_region_begin : bool;
  next_maybe_region_end : bool;
}.

Inductive LineParseResult := LineComment | Continue.

(** [update_comment_state] *)
Definition update_comment_state (st : CommentState) (c : ascii)
  : LineParseResult * CommentState :=
  let '(mkCS r lb rb re) := st in
  if r then
    if Ascii.eqb c "/" then
      (Continue, if re then mkCS false lb rb false else st)
    else if Ascii.eqb c "*" then
      (Continue, if negb re then mkCS r lb rb true else st)
    else (Continue, mkCS r lb rb false)
  else
    if Ascii.eqb c "/" then
      if lb then (LineComment, st) else (Continue, mkCS r true true re)
    else if Ascii.eqb c "*" then
      (Continue, if rb then mkCS true false false re else st)
    else (Continue, mkCS r false false re).

(** [extract_token]; the [unwrap] of the [u16] parse is the [Panic]. *)
Definition extract_token (stash : list ascii) : outcome (result Token string) :=
  match stash with
  | [] => Done (Err "Empty stash given")
  | s0 :: rest =>
      let word := string_of_list_ascii stash in
      if (Nat.eqb (length stash) 1 && is_symbol s0)%bool then Done (Ok (Symbol s0))
      else if is_ascii_digit s0 then
        match parse_u16 word with
        | Some v => Done (Ok (IntegerConstant v))
        | None => Panic
        end
      else if is_keyword word then Done (Ok (Keyword word))
      else Done (Ok (Identifier word))
  end.

(** [extract_token(..).unwrap()] *)
Definition extract_token_unwrap (stash : list ascii) : outcome Token :=
  bind_out (extract_token stash) (fun r =>
  match r with Ok t => Done t | Err _ => Panic end).

(** [struct LineContext] *)
Record LineContext := mkLC {
  comment : CommentState;
  in_string : bool;
  char_stash : list ascii;
}.

(** Flush a non-empty stash as a token (the [if !ctx.char_stash.is_empty()]
    blocks of [parse_line]). *)
Definition flush (stash : list ascii) (tokens : list Token) : outcome (list Token) :=
  match stash with
  | [] => Done tokens
  | _ => bind_out (extract_token_unwrap stash) (fun t => Done (app tokens [t]))
  end.

(** The body of the [for c in line.chars()] loop of [parse_line]; the
    tokens are accumulated in order, [break] stops at a line comment. *)
Fixpoint parse_chars (cs : list ascii) (ctx : LineContext) (tokens : list Token)
  : outcome (list Token * LineContext) :=
  match cs with
  | [] => Done (tokens, ctx)
  | c :: cs' =>
      let '(mkLC cm in_str stash) := ctx in
      if in_str then
        if Ascii.eqb c QUOTE then
          parse_chars cs' (mkLC cm false [])
            (app tokens [StringConstant (string_of_list_ascii stash)])
        else parse_chars cs' (mkLC cm true (app stash [c])) tokens
      else
        let '(ret, cm') := update_comment_state cm c in
        match ret with
        | LineComment => Done (tokens, mkLC cm' in_str stash)
        | Continue =>
            if in_region cm' then parse_chars cs' (mkLC cm' in_str []) tokens
            else if is_whitespace c then
              bind_out (flush stash tokens) (fun tokens' =>
              parse_chars cs' (mkLC cm' in_str []) tokens')
            else if Ascii.eqb c QUOTE then
              parse_chars cs' (mkLC cm' true stash) tokens
            else if is_symbol c then
              if Ascii.eqb c "/" then
                parse_chars cs' (mkLC cm' in_str (app stash [c])) tokens
              else
                bind_out (flush stash tokens) (fun tokens' =>
                parse_chars cs' (mkLC cm' in_str []) (app tokens' [Symbol c]))
            else parse_chars cs' (mkLC cm' in_str (app stash [c])) tokens
        end
  end.

(** [parse_line]: takes the file context's [in_comment] flag and returns the
    line's tokens with the updated flag.  The stash left at the end of the
    line is dropped. *)
Definition parse_line (in_comment : bool) (line : string)
  : outcome (list Token * bool) :=
  bind_out (parse_chars (list_ascii_of_string line)
              (mkLC (mkCS in_comment false false false) false []) []) (fun '(ts, ctx) =>
  Done (ts, in_region (comment ctx))).

(** [generate_token_list]: the lines of a file, one [FileContext]. *)
Fixpoint generate_from (in_comment : bool) (lines : list string) : outcome (list Token) :=
  match lines with
  | [] => Done []
  | l :: ls =>
      bind_out (parse_line in_comment l) (fun '(ts, in_comment') =>
      bind_out (generate_from in_comment' ls) (fun rest => Done (app ts rest)))
  end.

Definition generate_token_list (lines : list string) : outcome (list Token) :=
  generate_from false lines.

(** Decimal value of a string of digits, accumulated from [acc]. *)
Fixpoint decimal_value (acc : Z) (s : list ascii) : Z :=
  match s with
  | [] => acc
  | c :: s' => decimal_value (acc * 10 + digit_value c) s'
  end.

(** [enum KeywordType] *)
Module KeywordType.
Inductive t := Class | Method | Function | Constructor | Int | Boolean | Char | Void
             | Var | Static | Field | Let | Do | If | Else | While | Return
             | True | False | Null | This.
End KeywordType.

(** [Keyword::keyword]: panics on a word that is not a keyword. *)
Definition Keyword_keyword (value : string) : outcome KeywordType.t :=
  if String.eqb value "class" then Done KeywordType.Class
  else if String.eqb value "constructor" then Done KeywordType.Constructor
  else if String.eqb value "function" then Done KeywordType.Function
  else if String.eqb value "method" then Done KeywordType.Method
  else if String.eqb value "field" then Done KeywordType.Field
  else if String.eqb value "static" then Done KeywordType.Static
  else if String.eqb value "var" then Done KeywordType.Var
  else if String.eqb value "int" then Done KeywordType.Int
  else if String.eqb value "char" then Done KeywordType.Char
  else if String.eqb value "boolean" then Done KeywordType.Boolean
  else if String.eqb value "void" then Done KeywordType.Void
  else if String.eqb value "true" then Done KeywordType.True
  else if String.eqb value "false" then Done KeywordType.False
  else if String.eqb value "null" then Done KeywordType.Null
  else if String.eqb value "this" then Done KeywordType.This
  else if String.eqb value "let" then Done KeywordType.Let
  else if String.eqb value "do" then Done KeywordType.Do
  else if String.eqb value "if" then Done KeywordType.If
  else if String.eqb value "else" then Done KeywordType.Else
  else if String.eqb value "while" then Done KeywordType.While
  else if String.eqb value "return" then Done KeywordType.Return
  else Panic.

(** Statement helper, not in the source: the shape of each kind of token
    [extract_token] and [parse_line] build.  An identifier is a non-empty
    word that is not a keyword, does not start with a digit, and holds no
    whitespace, no double quote and no symbol other than [/]. *)
Definition token_wf (t : Token) : Prop :=
  match t with
  | Keyword w => In w KEYWORD_LIST
  | Symbol c => In c SYMBOL_LIST
  | Identifier w =>
      w <> "" /\ is_keyword w = false /\
      (forall c rest, w = String c rest -> is_ascii_digit c = false) /\
      Forall (fun c => is_whitespace c = false /\ c <> QUOTE /\
                       (is_symbol c = false \/ c = "/"%char))
             (list_ascii_of_string w)
  | IntegerConstant v => 0 <= v <= 65535
  | StringConstant s => ~ In QUOTE (list_ascii_of_string s)
  end.

End Tokenizer.

(** ================================================================ *)
(** ** Parser and code generator : projects/jack_compiler/src/parser.rs *)

Module Parser.
Import Tokenizer.

(** The parse and compile functions return [Result<_, Error>] and may
    panic; parsing is also bounded by a fuel argument, which the source
    does not have.  [Crash] is a panic, [NoFuel] exhausted fuel. *)
Inductive Error := UnexpectedSymbol (symbol : ascii) (index : nat) | UnexpectedKeyword.

Inductive run (A : Type) := Ret (a : A) | Fail (e : Error) | Crash | NoFuel.
Arguments Ret {A} a.
Arguments Fail {A} e.
Arguments Crash {A}.
Arguments NoFuel {A}.

Definition bind_run {A B} (m : run A) (k : A -> run B) : run B :=
  match m with
  | Ret a => k a
  | Fail e => Fail e
  | Crash => Crash
  | NoFuel => NoFuel
  end.

#[global] Instance run_mbind : MBind run := fun A B k m => bind_run m k.

(** The syntax tree.  [Op] is kept as its symbol; the delimiters and
    blocks kept by the source only for XML output are left out. *)
Inductive Term :=
| Integer (value : Z)
| StringT (value : string)
| KeywordT (keyword : string)
| VarName (name : string)
| ArrayVar (name : string) (expression : Expression)
| Subroutine (call : CallType)
| ExpresssionInParenthesis (expression : Expression)
| UnaryOp (op : ascii) (term : Term)
with Expression := Expr (terms : list Term) (ops : list ascii)
with CallType :=
| FunctionCall (name : string) (parameters : list Expression)
| MethodCall (source_name method_name : string) (parameters : list Expression).

Definition expr_terms (e : Expression) : list Term := let '(Expr ts _) := e in ts.
Definition expr_ops (e : Expression) : list ascii := let '(Expr _ os) := e in os.

(** [tokens.list[i]]: out of range panics. *)
Definition tok (tokens : list Token) (i : nat) : run Token :=
  match tokens !! i with Some t => Ret t | None => Crash end.

(** [tokens.list[i].symbol().unwrap()] *)
Definition tok_symbol (tokens : list Token) (i : nat) : run ascii :=
  t ← tok tokens i ; match t with Symbol s => Ret s | _ => Crash end.

(** [tokens.list[i].identifier().unwrap()] *)
Definition tok_identifier (tokens : list Token) (i : nat) : run string :=
  t ← tok tokens i ; match t with Identifier s => Ret s | _ => Crash end.

(** [Keyword::keyword] panics on a word that is not a keyword. *)
Definition is_keyword_constant (k : string) : bool :=
  (String.eqb k "this" || String.eqb k "null" || String.eqb k "true" ||
   String.eqb k "false")%bool.

Definition is_binary_op_symbol (c : ascii) : bool :=
  existsb (Ascii.eqb c) ["+"; "*"; "/"; "&"; "|"; "<"; ">"; "="]%char.

Definition is_expression_end (c : ascii) : bool :=
  existsb (Ascii.eqb c) [")"; "]"; ";"; ","]%char.

(** [parse_term], [parse_expression] (its loop, with the target expression
    [Expr terms ops] being filled) and [parse_expression_list] (its loop,
    with the expressions parsed so far). *)
Fixpoint parse_term (fuel : nat) (tokens : list Token) (idx : nat)
  : run (Term * nat) :=
  match fuel with
  | O => NoFuel
  | S f =>
    t ← tok tokens idx ;
    match t with
    | IntegerConstant v => Ret (Integer v, S idx)
    | StringConstant s => Ret (StringT s, S idx)
    | Keyword k =>
        if is_keyword_constant k then Ret (KeywordT k, S idx)
        else if is_keyword k then Fail UnexpectedKeyword else Crash
    | Identifier id =>
        next ← tok tokens (S idx) ;
        match next with
        | Symbol s =>
            if Ascii.eqb s "[" then
              '(e, i) ← parse_expression f tokens (S (S idx)) [] [] ;
              close ← tok_symbol tokens i ;
              if Ascii.eqb close "]" then Ret (ArrayVar id e, S i)
              else Fail (UnexpectedSymbol close i)
            else if Ascii.eqb s "(" then Crash
            else if Ascii.eqb s "." then
              sub ← tok_identifier tokens (S (S idx)) ;
              open_paren ← tok_symbol tokens (S (S (S idx))) ;
              if negb (Ascii.eqb open_paren "(") then
                Fail (UnexpectedSymbol open_paren (S (S (S idx))))
              else
                '(params, i) ← parse_expression_list f tokens (S (S (S (S idx)))) [] ;
                close ← tok_symbol tokens i ;
                if Ascii.eqb close ")" then Ret (Subroutine (MethodCall id sub params), S i)
                else Fail (UnexpectedSymbol close i)
            else Ret (VarName id, S idx)
        | _ => Ret (VarName id, S idx)
        end
    | Symbol s =>
        if Ascii.eqb s "(" then
          '(e, i) ← parse_expression f tokens (S idx) [] [] ;
          close ← tok_symbol tokens i ;
          if Ascii.eqb close ")" then Ret (ExpresssionInParenthesis e, S i)
          else Fail (UnexpectedSymbol close i)
        else if (Ascii.eqb s "-" || Ascii.eqb s "~")%bool then
          '(term, i) ← parse_term f tokens (S idx) ;
          Ret (UnaryOp s term, i)
        else Fail (UnexpectedSymbol s idx)
    end
  end
with parse_expression (fuel : nat) (tokens : list Token) (idx : nat)
    (terms : list Term) (ops : list ascii) : run (Expression * nat) :=
  match fuel with
  | O => NoFuel
  | S f =>
    t ← tok tokens idx ;
    match t with
    | Symbol s =>
        if Ascii.eqb s "-" then
          match terms with
          | [] =>
              '(term, i) ← parse_term f tokens (S idx) ;
              parse_expression f tokens i (app terms [UnaryOp s term]) ops
          | _ :: _ => parse_expression f tokens (S idx) terms (app ops [s])
          end
        else if Ascii.eqb s "~" then
          '(term, i) ← parse_term f tokens (S idx) ;
          parse_expression f tokens i (app terms [UnaryOp s term]) ops
        else if is_binary_op_symbol s then
          parse_expression f tokens (S idx) terms (app ops [s])
        else if is_expression_end s then Ret (Expr terms ops, idx)
        else
          '(term, i) ← parse_term f tokens idx ;
          parse_expression f tokens i (app terms [term]) ops
    | _ =>
        '(term, i) ← parse_term f tokens idx ;
        parse_expression f tokens i (app terms [term]) ops
    end
  end
with parse_expression_list (fuel : nat) (tokens : list Token) (idx : nat)
    (exprs : list Expression) : run (list Expression * nat) :=
  match fuel with
  | O => NoFuel
  | S f =>
    t ← tok tokens idx ;
    match t with
    | Symbol s =>
        if Ascii.eqb s ")" then Ret (exprs, idx)
        else if Ascii.eqb s "," then parse_expression_list f tokens (S idx) exprs
        else
          '(e, i) ← parse_expression f tokens idx [] [] ;
          parse_expression_list f tokens i (app exprs [e])
    | _ =>
        '(e, i) ← parse_expression f tokens idx [] [] ;
        parse_expression_list f tokens i (app exprs [e])
    end
  end.

(** [parse_subroutine_call] *)
Definition parse_subroutine_call (fuel : nat) (tokens : list Token) (idx : nat)
  : run (CallType * nat) :=
  source ← tok_identifier tokens idx ;
  next ← tok_symbol tokens (S idx) ;
  if Ascii.eqb next "(" then
    '(params, i) ← parse_expression_list fuel tokens (S (S idx)) [] ;
    end_token ← tok_symbol tokens i ;
    if Ascii.eqb end_token ")" then Ret (FunctionCall source params, S i)
    else Fail (UnexpectedSymbol end_token i)
  else if Ascii.eqb next "." then
    m ← tok_identifier tokens (S (S idx)) ;
    start ← tok_symbol tokens (S (S (S idx))) ;
    if negb (Ascii.eqb start "(") then Fail (UnexpectedSymbol start (S (S (S idx))))
    else
      '(params, i) ← parse_expression_list fuel tokens (S (S (S (S idx)))) [] ;
      end_token ← tok_symbol tokens i ;
      if Ascii.eqb end_token ")" then Ret (MethodCall source m params, S i)
      else Fail (UnexpectedSymbol end_token i)
  else Fail (UnexpectedSymbol next (S idx)).

(** [struct DoStatement] and [parse_do_statement] (called on the index
    after the [do] keyword). *)
Inductive DoStatement := mkDo (subroutine_call : CallType).

Definition parse_do_statement (fuel : nat) (tokens : list Token) (idx : nat)
  : run (DoStatement * nat) :=
  '(call, i) ← parse_subroutine_call fuel tokens idx ;
  end_token ← tok_symbol tokens i ;
  if Ascii.eqb end_token ";" then Ret (mkDo call, S i)
  else Fail (UnexpectedSymbol end_token i).

(** Symbol tables, [ReturnType] registry and [ParseInfo]. *)
Inductive SymbolCategory := Var | Argument | Static | Field.
Inductive SymbolType := SInt | SChar | SBoolean | SClass (name : string).

Record SymbolTableEntry := mkEntry {
  category : SymbolCategory;
  symbol_type : SymbolType;
  entry_index : nat;
}.

Record ClassSymbolTable := mkClassTable {
  class_table : gmap string SymbolTableEntry;
  static_count : nat;
  field_count : nat;
}.

Record MethodSymbolTable := mkMethodTable {
  method_table : gmap string SymbolTableEntry;
  argument_count : nat;
  var_count : nat;
}.

Inductive ReturnType := Void | RInt | RChar | RBoolean | RClass (name : string).

Record ParseInfo := mkParseInfo {
  class_symbol_table : ClassSymbolTable;
  symbol_table_per_method : gmap string MethodSymbolTable;
  return_type : gmap string ReturnType;
}.

(** [init_os_functions]: the OS subroutines and their return types. *)
Definition os_functions : list (string * ReturnType) :=
  let str := RClass "String" in
  let arr := RClass "Array" in
  [("Math.multiply", RInt); ("Math.divide", RInt); ("Math.min", RInt);
   ("Math.max", RInt); ("Math.sqrt", RInt); ("String.new", str);
   ("String.dispose", RInt); ("String.length", RInt); ("String.charAt", RChar);
   ("String.setCharAt", Void); ("String.appendChar", str);
   ("String.eraseLastChar", Void); ("String.intValue", RInt);
   ("String.setInt", Void); ("String.backSpace", RChar);
   ("String.doubleQuote", RChar); ("String.newLine", RChar);
   ("Array.new", arr); ("Array.dispose", Void); ("Output.moveCursor", Void);
   ("Output.printChar", Void); ("Output.printString", Void);
   ("Output.printInt", Void); ("Output.println", Void);
   ("Output.backSpace", Void); ("Screen.clearScreen", Void);
   ("Screen.setColor", Void); ("Screen.drawPixel", Void);
   ("Screen.drawLine", Void); ("Screen.drawRectangle", Void);
   ("Screen.drawCircle", Void); ("Keyboard.keyPressed", RChar);
   ("Keyboard.readChar", RChar); ("Keyboard.readLine", str);
   ("Keyboard.readInt", RInt); ("Memory.peek", RInt); ("Memory.poke", Void);
   ("Memory.alloc", arr); ("Memory.dealloc", Void); ("Sys.halt", Void);
   ("Sys.error", Void); ("Sys.wait", Void)].

Definition init_os_functions (table : gmap string ReturnType) : gmap string ReturnType :=
  fold_left (fun t '(f, r) => <[f := r]> t) os_functions table.

(** [ParseInfo::new] *)
Definition ParseInfo_new : ParseInfo :=
  mkParseInfo (mkClassTable ∅ 0 0) ∅ (init_os_functions ∅).

(** [FunctionScopeState] and [CompileState] *)
Record FunctionScopeState := mkFuncState {
  subroutine_name : string;
  while_counter : nat;
  if_counter : nat;
}.

Record CompileState := mkCompileState {
  class_name : string;
  func_state : FunctionScopeState;
}.

Definition full_method_name (st : CompileState) : string :=
  class_name st ++ "." ++ subroutine_name (func_state st).

(** [tokenizer::NEW_LINE] *)
Definition NEW_LINE : string := String (ascii_of_nat 13) (String (ascii_of_nat 10) EmptyString).

(** The compile functions append to [output]; here each returns the text
    it appends. *)
Definition compile_integer (v : Z) : run string :=
  Ret ("push constant " ++ fmt_Z v ++ NEW_LINE).

(** [VarNameTerm::compile] *)
Definition compile_var_name (info : ParseInfo) (st : CompileState) (name : string)
  : run string :=
  match symbol_table_per_method info !! full_method_name st with
  | None => Crash
  | Some tbl =>
      match method_table tbl !! name with
      | None => Crash
      | Some entry =>
          match symbol_type entry with
          | SClass _ => Crash
          | _ =>
              match category entry with
              | Argument => Ret ("push argument " ++ fmt_nat (entry_index entry) ++ NEW_LINE)
              | Var => Ret ("push local " ++ fmt_nat (entry_index entry) ++ NEW_LINE)
              | _ => Crash
              end
          end
      end
  end.

(** [KeywordTerm::compile] *)
Definition compile_keyword (k : string) : run string :=
  if String.eqb k "true" then Ret ("push constant 0" ++ NEW_LINE ++ "not" ++ NEW_LINE)
  else if String.eqb k "false" then Ret ("push constant 0" ++ NEW_LINE)
  else Crash.

(** [Op::compile] *)
Definition compile_op (c : ascii) : run string :=
  if Ascii.eqb c "+" then Ret ("add" ++ NEW_LINE)
  else if Ascii.eqb c "-" then Ret ("sub" ++ NEW_LINE)
  else if Ascii.eqb c "=" then Ret ("eq" ++ NEW_LINE)
  else if Ascii.eqb c ">" then Ret ("gt" ++ NEW_LINE)
  else if Ascii.eqb c "<" then Ret ("lt" ++ NEW_LINE)
  else if Ascii.eqb c "&" then Ret ("and" ++ NEW_LINE)
  else if Ascii.eqb c "|" then Ret ("or" ++ NEW_LINE)
  else if Ascii.eqb c "~" then Ret ("not" ++ NEW_LINE)
  else if Ascii.eqb c "*" then Ret ("call Math.multiply 2" ++ NEW_LINE)
  else if Ascii.eqb c "/" then Ret ("call Math.divide 2" ++ NEW_LINE)
  else Crash.

(** The line [format!("{} {} {}{}", CALL, name, n, NEW_LINE)]. *)
Definition call_line (name : string) (n : nat) : string :=
  "call " ++ name ++ " " ++ fmt_nat n ++ NEW_LINE.

(** The loops of the compile functions: [for e in &self.list] of
    [ExpressionList::compile] ([compile_seq]), and [for i in 1..term_len]
    of [Expression::compile], which compiles [terms[i]] then [ops[i-1]]
    ([compile_pairs]). *)
Fixpoint compile_seq {A} (c : A -> run string) (xs : list A) : run string :=
  match xs with
  | [] => Ret ""
  | x :: xs' => s ← c x ; r ← compile_seq c xs' ; Ret (s ++ r)
  end.

Fixpoint compile_pairs (ct : Term -> run string) (ts : list Term) (os : list ascii)
  : run string :=
  match ts, os with
  | t :: ts', o :: os' =>
      c ← ct t ; oc ← compile_op o ; r ← compile_pairs ct ts' os' ; Ret (c ++ oc ++ r)
  | _, _ => Ret ""
  end.

(** [Term::compile], [Expression::compile] (with its two assertions) and
    [CallType::compile] with [FunctionCall::compile] and
    [MethodCall::compile]. *)
Fixpoint compile_term (info : ParseInfo) (st : CompileState) (t : Term) : run string :=
  match t with
  | Integer v => compile_integer v
  | StringT _ => Ret ""
  | ExpresssionInParenthesis e => compile_expression info st e
  | UnaryOp op t' =>
      c ← compile_term info st t' ;
      if Ascii.eqb op "-" then Ret (c ++ "neg" ++ NEW_LINE)
      else if Ascii.eqb op "~" then Ret (c ++ "not" ++ NEW_LINE)
      else Crash
  | Subroutine call => compile_call info st call
  | VarName name => compile_var_name info st name
  | KeywordT k => compile_keyword k
  | ArrayVar _ _ => Crash
  end
with compile_expression (info : ParseInfo) (st : CompileState) (e : Expression)
  : run string :=
  let '(Expr terms ops) := e in
  if Nat.eqb (length terms) 0 then Crash
  else if negb (Nat.eqb (length terms - 1) (length ops)) then Crash
  else
    match terms with
    | [] => Crash
    | t0 :: ts =>
        c0 ← compile_term info st t0 ;
        rest ← compile_pairs (compile_term info st) ts ops ;
        Ret (c0 ++ rest)
    end
with compile_call (info : ParseInfo) (st : CompileState) (c : CallType) : run string :=
  match c with
  | FunctionCall name params =>
      pc ← compile_seq (compile_expression info st) params ;
      Ret (pc ++ call_line name (length params))
  | MethodCall source_name method_name params =>
      pc ← compile_seq (compile_expression info st) params ;
      let caller := source_name ++ "." ++ method_name in
      match return_type info !! caller with
      | None => Crash
      | Some rt =>
          Ret (pc ++ call_line caller (length params) ++
               match rt with Void => "pop temp 0" ++ NEW_LINE | _ => "" end)
      end
  end.

(** [ExpressionList::compile] *)
Definition compile_expression_list (info : ParseInfo) (st : CompileState)
    (es : list Expression) : run string :=
  compile_seq (compile_expression info st) es.

(** [DoStatement::compile] *)
Definition compile_do (info : ParseInfo) (st : CompileState) (d : DoStatement) : run string :=
  let '(mkDo call) := d in
  c ← compile_call info st call ;
  Ret c.

(** Tokenize one line holding a [do] statement, parse it after its [do]
    keyword and compile it. *)
Definition compile_do_line (info : ParseInfo) (st : CompileState) (line : string)
  : run string :=
  match generate_token_list [line] with
  | Done tokens =>
      '(d, _) ← parse_do_statement (length tokens) tokens 1 ;
      compile_do info st d
  | Panic => Crash
  end.

(** [ClassSymbolTable::add_entry]: a [static] or [field] entry gets the
    current count of its category as index, which is then incremented;
    any other category panics. *)
Definition class_add_entry (table : ClassSymbolTable) (name : string)
    (category : SymbolCategory) (symbol_type : SymbolType) : outcome ClassSymbolTable :=
  match category with
  | Static =>
      Done (mkClassTable
              (<[name := mkEntry category symbol_type (static_count table)]> (class_table table))
              (S (static_count table)) (field_count table))
  | Field =>
      Done (mkClassTable
              (<[name := mkEntry category symbol_type (field_count table)]> (class_table table))
              (static_count table) (S (field_count table)))
  | _ => Panic
  end.

(** [MethodSymbolTable::add_entry]: the same for [argument] and [var]. *)
Definition method_add_entry (table : MethodSymbolTable) (name : string)
    (category : SymbolCategory) (symbol_type : SymbolType) : outcome MethodSymbolTable :=
  match category with
  | Argument =>
      Done (mkMethodTable
              (<[name := mkEntry category symbol_type (argument_count table)]> (method_table table))
              (S (argument_count table)) (var_count table))
  | Var =>
      Done (mkMethodTable
              (<[name := mkEntry category symbol_type (var_count table)]> (method_table table))
              (argument_count table) (S (var_count table)))
  | _ => Panic
  end.

(** [var_type_to_symbol_type] *)
Definition var_type_to_symbol_type (var_type : Token) : outcome SymbolType :=
  match var_type with
  | Identifier id => Done (SClass id)
  | Keyword k =>
      bind_out (Keyword_keyword k) (fun kt =>
      match kt with
      | KeywordType.Boolean => Done SBoolean
      | KeywordType.Int => Done SInt
      | KeywordType.Char => Done SChar
      | _ => Panic
      end)
  | _ => Panic
  end.

(** The loop of [parse_subroutine_body] over the names of a [var]
    declaration: [table.add_entry(v.string(), SymbolCategory::Var,
    var_type_to_symbol_type(&vd.var_type))] for each name in order. *)
Fixpoint declare_vars (table : MethodSymbolTable) (names : list string) (var_type : Token)
  : outcome MethodSymbolTable :=
  match names with
  | [] => Done table
  | v :: vs =>
      bind_out (var_type_to_symbol_type var_type) (fun ty =>
      bind_out (method_add_entry table v Var ty) (fun table' =>
      declare_vars table' vs var_type))
  end.

(** The loop [for i in 0..param_list.name.len()] of [parse_subroutine_dec]:
    the [i]-th name is added as an [argument] of the [i]-th type
    ([param_type[i]] panics when there are fewer types than names). *)
Fixpoint declare_params (table : MethodSymbolTable) (names : list string)
    (param_types : list Token) : outcome MethodSymbolTable :=
  match names, param_types with
  | [], _ => Done table
  | n :: ns, ty :: tys =>
      bind_out (var_type_to_symbol_type ty) (fun st =>
      bind_out (method_add_entry table n Argument st) (fun table' =>
      declare_params table' ns tys))
  | _ :: _, [] => Panic
  end.

(** Auxiliary definitions for the proofs. *)

(** Induction over the mutually nested syntax tree. *)
Section SyntaxInduction.
Variables (P : Term -> Prop) (Q : Expression -> Prop) (R : CallType -> Prop).
Hypothesis HInteger : forall v, P (Integer v).
Hypothesis HString : forall s, P (StringT s).
Hypothesis HKeyword : forall k, P (KeywordT k).
Hypothesis HVarName : forall n, P (VarName n).
Hypothesis HArrayVar : forall n e, Q e -> P (ArrayVar n e).
Hypothesis HSubroutine : forall c, R c -> P (Subroutine c).
Hypothesis HParen : forall e, Q e -> P (ExpresssionInParenthesis e).
Hypothesis HUnary : forall o t, P t -> P (UnaryOp o t).
Hypothesis HExpr : forall ts os, Forall P ts -> Q (Expr ts os).
Hypothesis HFunction : forall n ps, Forall Q ps -> R (FunctionCall n ps).
Hypothesis HMethod : forall x f ps, Forall Q ps -> R (MethodCall x f ps).

Fixpoint term_ind' (t : Term) : P t :=
  match t with
  | Integer v => HInteger v
  | StringT s => HString s
  | KeywordT k => HKeyword k
  | VarName n => HVarName n
  | ArrayVar n e => HArrayVar n e (expr_ind' e)
  | Subroutine c => HSubroutine c (call_ind' c)
  | ExpresssionInParenthesis e => HParen e (expr_ind' e)
  | UnaryOp o t' => HUnary o t' (term_ind' t')
  end
with expr_ind' (e : Expression) : Q e :=
  match e with
  | Expr ts os =>
      HExpr ts os ((fix go (ts : list Term) : Forall P ts :=
                      match ts with
                      | [] => @List.Forall_nil _ P
                      | t :: ts' => @List.Forall_cons _ P t ts' (term_ind' t) (go ts')
                      end) ts)
  end
with call_ind' (c : CallType) : R c :=
  let go := fix go (ps : list Expression) : Forall Q ps :=
              match ps with
              | [] => @List.Forall_nil _ Q
              | e :: ps' => @List.Forall_cons _ Q e ps' (expr_ind' e) (go ps')
              end in
  match c with
  | FunctionCall n ps => HFunction n ps (go ps)
  | MethodCall x f ps => HMethod x f ps (go ps)
  end.
End SyntaxInduction.

(** A compile step that either panics or succeeds: it never returns an error
    value. *)
Definition panics_or_ok (r : run string) : Prop := r = Crash \/ exists s, r = Ret s.

(** The compile state inside [Main.main]. *)
Definition main_state : CompileState := mkCompileState "Main" (mkFuncState "main" 0 0).

End Parser.

(** ================================================================ *)
(** * Proofs *)

(** ** Assembler *)

Ltac eqb_cases x :=
  repeat match goal with
  | |- context [String.eqb x ?k] =>
      destruct (String.eqb_spec x k) as [->|?]; [reflexivity|]
  end.

Lemma comp_bits_table (c : string) :
  Assembler.comp_bits c = Assembler.assoc c Assembler.hack_comp_table.
Proof.
  unfold Assembler.comp_bits. cbn [Assembler.assoc Assembler.hack_comp_table].
  eqb_cases c. reflexivity.
Qed.

Lemma dest_bits_table (d : option string) :
  Assembler.dest_bits d = Assembler.spec_field Assembler.hack_dest_table d.
Proof.
  destruct d as [d|]; [|reflexivity].
  unfold Assembler.dest_bits. cbn [Assembler.spec_field Assembler.assoc Assembler.hack_dest_table].
  eqb_cases d. reflexivity.
Qed.

Lemma jump_bits_table (j : option string) :
  Assembler.jump_bits j =
  option_map (fun b => b ++ Assembler.NL) (Assembler.spec_field Assembler.hack_jump_table j).
Proof.
  destruct j as [j|]; [|reflexivity].
  unfold Assembler.jump_bits. cbn [Assembler.spec_field Assembler.assoc Assembler.hack_jump_table].
  eqb_cases j. reflexivity.
Qed.

Lemma str_app_assoc (a b c : string) : (a ++ b) ++ c = a ++ (b ++ c).
Proof. induction a as [|x a IH]; simpl; [reflexivity|by rewrite IH]. Qed.

Lemma str_app_nil_r (a : string) : a ++ "" = a.
Proof. induction a as [|x a IH]; simpl; [reflexivity|by rewrite IH]. Qed.

(** C3: a C-instruction is encoded exactly as [111 | comp | dest | jump] of
    the standard Hack tables (followed by the newline written after each
    word), e.g. [D+M] is [1000010]; an unknown comp, dest or jump mnemonic
    makes the encoding fail. *)
Theorem c_instruction_encoding_standard (ci : Assembler.CInstruction) :
  match Assembler.spec_c_word ci with
  | Some w => Assembler.c_to_binary_text ci = Ok (w ++ Assembler.NL)
  | None => exists e, Assembler.c_to_binary_text ci = Err e
  end /\ Assembler.comp_bits "D+M" = Some "1000010".
Proof.
  split; [|reflexivity].
  destruct ci as [c d j].
  unfold Assembler.spec_c_word, Assembler.c_to_binary_text.
  cbn [Assembler.comp Assembler.dest Assembler.jump].
  rewrite (comp_bits_table c), (dest_bits_table d), (jump_bits_table j).
  destruct (Assembler.assoc c Assembler.hack_comp_table) as [cb|]; [|simpl; eauto].
  destruct (Assembler.spec_field Assembler.hack_dest_table d) as [db|]; [|simpl; eauto].
  destruct (Assembler.spec_field Assembler.hack_jump_table j) as [jb|]; simpl; [|eauto].
  rewrite !str_app_assoc. reflexivity.
Qed.

(** C8: the table built from [PREDEFINED_SYMBOL] has no binding for [R8]
    and binds [R7] to 8 (the entry [("R7", 8)] overwrites [("R7", 7)]). *)
Theorem predefined_table_r7_r8 :
  Assembler.main_symbol_table [] !! "R8" = None /\
  Assembler.main_symbol_table [] !! "R7" = Some 8%Z /\
  Assembler.assemble ["@R8"] = Panic.
Proof. split; [|split]; reflexivity. Qed.

Lemma split_char_absent (c : ascii) (s : string) :
  has_char c s = false -> split_char c s = [s].
Proof.
  induction s as [|x s IH]; simpl; [reflexivity|].
  intros H. apply orb_false_iff in H as [Hx Hs].
  rewrite Hx, (IH Hs). reflexivity.
Qed.

Lemma parse_lines_panic_at (pre post : list string) (l : string) (t : gmap string Z) :
  (forall p, In p pre -> Assembler.parse_line p t <> Panic) ->
  Assembler.parse_line l t = Panic ->
  Assembler.parse_lines (app pre (l :: post)) t = Panic.
Proof.
  intros Hpre Hl. induction pre as [|p pre IH]; simpl.
  - by rewrite Hl.
  - destruct (Assembler.parse_line p t) as [[lt is]|] eqn:Ep.
    + simpl. rewrite IH; [reflexivity|]. intros q Hq. apply Hpre. by right.
    + exfalso. apply (Hpre p); [by left|exact Ep].
Qed.

(** C1 (defect): [init_symbol_table] is an empty stub, so every line is
    resolved against the predefined table alone. A program whose lines
    parse up to an A-instruction [@sym], where [sym] is neither a u16 nor a
    predefined symbol, panics there, even when an earlier line is the label
    [(sym)]: no label is bound and no variable is allocated at 16. *)
Theorem assembler_symbols_unresolved (pre post : list string) (sym : string) :
  remove_comment (trim (String "@" sym)) = String "@" sym ->
  has_char "@" sym = false ->
  parse_u16 sym = None ->
  Assembler.collect_map Assembler.PREDEFINED_SYMBOL !! sym = None ->
  (forall p, In p pre ->
     Assembler.parse_line p (Assembler.collect_map Assembler.PREDEFINED_SYMBOL) <> Panic) ->
  Assembler.assemble (app pre (String "@" sym :: post)) = Panic.
Proof.
  intros Hcode Hat Hu Hsym Hpre.
  unfold Assembler.assemble, Assembler.main_symbol_table, Assembler.init_symbol_table.
  apply parse_lines_panic_at; [exact Hpre|].
  unfold Assembler.parse_line. rewrite Hcode. cbv zeta iota.
  unfold Assembler.a_new. cbn [split_char Ascii.eqb].
  rewrite (split_char_absent _ _ Hat). simpl. rewrite Hu, Hsym. reflexivity.
Qed.

Lemma assembler_symbols_unresolved_witness :
  Assembler.assemble ["(LOOP)"; "@LOOP"] = Panic /\
  Assembler.assemble ["@i"; "M=0"] = Panic.
Proof.
  split.
  - apply (assembler_symbols_unresolved ["(LOOP)"] [] "LOOP");
      [reflexivity..|]. intros p [<-|[]]. vm_compute. discriminate.
  - apply (assembler_symbols_unresolved [] ["M=0"] "i"); [reflexivity..|].
    intros p [].
Defined.

(** ** VM translator *)

Ltac inv_done :=
  repeat match goal with
  | H : bind_out ?m _ = Done _ |- _ =>
      let E := fresh "E" in destruct m eqn:E; simpl in H; [|discriminate H]
  | H : (let '(_, _) := ?p in _) = Done _ |- _ => destruct p; simpl in H
  | H : Done _ = Done _ |- _ => injection H; clear H; intros; subst
  end.

Lemma memory_access_new_shape cmd seg idx m :
  VMTranslator.memory_access_new cmd seg idx = Done m ->
  exists s i, m = VMTranslator.MemoryAccess cmd s i.
Proof.
  unfold VMTranslator.memory_access_new. intros H. inv_done. eauto.
Qed.

Lemma parse_line_kind (a : VMTranslator.ArithmeticType) l c cmd c' :
  VMTranslator.is_comparison a ->
  VMTranslator.parse_line l c = Done (cmd, c') ->
  let ids := VMTranslator.ids_of a (option_list cmd) in
  (ids = [] /\ VMTranslator.counter_of a c' = VMTranslator.counter_of a c) \/
  (ids = [(VMTranslator.counter_of a c + 1)%Z] /\
   VMTranslator.counter_of a c' = (VMTranslator.counter_of a c + 1)%Z).
Proof.
  intros Ha H. unfold VMTranslator.parse_line in H.
  destruct (trim (remove_comment l)) eqn:Ecode.
  { injection H as <- <-. left. split; reflexivity. }
  inv_done.
  repeat match type of H with
  | context [if String.eqb ?x ?y then _ else _] => destruct (String.eqb x y)
  end;
  unfold VMTranslator.incr, VMTranslator.unwrap in *; inv_done;
  repeat match goal with
  | H : (if ?b then _ else _) = Done _ |- _ => destruct b; [|discriminate H]
  | H : VMTranslator.memory_access_new _ _ _ = Done ?m |- _ =>
      apply memory_access_new_shape in H as (? & ? & ->)
  end; inv_done;
  destruct Ha as [ -> | [ -> | -> ] ]; simpl; auto.
Qed.

Lemma ids_of_cons_opt a (cmd : option VMTranslator.Command) cmds :
  VMTranslator.ids_of a (match cmd with Some x => x :: cmds | None => cmds end) =
  app (VMTranslator.ids_of a (option_list cmd)) (VMTranslator.ids_of a cmds).
Proof. destruct cmd; simpl; [destruct (VMTranslator.id_of_kind a c)|]; reflexivity. Qed.

(** Over a whole run, the ids of the comparisons of kind [a] are the
    successive values after the counter's starting value. *)
Lemma parse_lines_ids (a : VMTranslator.ArithmeticType) lines c cmds c' :
  VMTranslator.is_comparison a ->
  VMTranslator.parse_lines lines c = Done (cmds, c') ->
  VMTranslator.ids_of a cmds =
    map (fun i => VMTranslator.counter_of a c + Z.of_nat i)%Z
        (seq 1 (length (VMTranslator.ids_of a cmds))) /\
  VMTranslator.counter_of a c' =
    (VMTranslator.counter_of a c + Z.of_nat (length (VMTranslator.ids_of a cmds)))%Z.
Proof.
  intros Ha. revert c cmds c'.
  induction lines as [|l ls IH]; intros c cmds c' H; simpl in H.
  - injection H as <- <-. simpl. split; [reflexivity|lia].
  - destruct (VMTranslator.parse_line l c) as [[cmd c1]|] eqn:E1; simpl in H; [|discriminate H].
    destruct (VMTranslator.parse_lines ls c1) as [[cmds' c2]|] eqn:E2; simpl in H; [|discriminate H].
    injection H as <- <-.
    destruct (IH c1 cmds' c2 E2) as [IH1 IH2].
    rewrite ids_of_cons_opt.
    destruct (parse_line_kind a l c cmd c1 Ha E1) as [[Hi Hc]|[Hi Hc]]; rewrite Hi; simpl.
    + rewrite Hc in IH1, IH2. split; assumption.
    + set (n := length (VMTranslator.ids_of a cmds')) in *.
      rewrite IH1, Hc in *. split; [|lia].
      f_equal; try lia.
      rewrite <- (seq_shift n 1), map_map. apply map_ext. intros i. lia.
Qed.

Lemma fmt_Z_inj (x y : Z) : (0 <= x)%Z -> (0 <= y)%Z -> fmt_Z x = fmt_Z y -> x = y.
Proof.
  unfold fmt_Z. intros Hx Hy H. apply (inj pretty) in H. lia.
Qed.

Lemma comparison_labels_inj a (i j : nat) :
  VMTranslator.is_comparison a ->
  VMTranslator.comparison_labels a (Z.of_nat i) = VMTranslator.comparison_labels a (Z.of_nat j) ->
  i = j.
Proof.
  intros [ -> | [ -> | -> ] ] H; simpl in H; injection H; intros;
  apply Nat2Z.inj, fmt_Z_inj; auto; lia.
Qed.

Lemma NoDup_map_on {A B} (f : A -> B) (l : list A) :
  (forall x y, f x = f y -> x = y) -> NoDup l -> NoDup (map f l).
Proof.
  intros Hf. induction 1 as [|x l Hx Hl IH]; simpl; constructor; [|exact IH].
  intros Hin. apply list_elem_of_In, in_map_iff in Hin as (y & Hy & Hin).
  apply Hf in Hy. subst. apply Hx, list_elem_of_In, Hin.
Qed.

(** C5 refuted as worded: from a fresh counter (all zero) the first [eq]
    does not use the counter's current value 0; the counter is incremented
    first and its new value 1 is used. *)
Lemma eq_id_is_not_current_value :
  ~ exists c', VMTranslator.parse_line "eq" VMTranslator.fresh_counter =
       Done (Some (VMTranslator.Arithmetic VMTranslator.Eq
                     (VMTranslator.eq VMTranslator.fresh_counter)), c').
Proof. intros [c' H]. vm_compute in H. congruence. Qed.

(** C5 (amended): starting from a fresh counter, each [eq]/[gt]/[lt] first
    advances its counter and uses the new value, so the comparisons of one
    kind get the ids 1, 2, 3, ... in order and their jump labels are pairwise
    distinct; two consecutive [eq] commands get the ids 1 and 2
    ([IsEq.1], [IsEq.2]). *)
Theorem comparison_ids_distinct (a : VMTranslator.ArithmeticType)
    (lines : list string) (cmds : list VMTranslator.Command) (c' : VMTranslator.Counter) :
  VMTranslator.is_comparison a ->
  VMTranslator.parse_lines lines VMTranslator.fresh_counter = Done (cmds, c') ->
  VMTranslator.ids_of a cmds =
    map Z.of_nat (seq 1 (length (VMTranslator.ids_of a cmds))) /\
  NoDup (map (VMTranslator.comparison_labels a) (VMTranslator.ids_of a cmds)) /\
  VMTranslator.parse_lines ["eq"; "eq"] VMTranslator.fresh_counter =
    Done ([VMTranslator.Arithmetic VMTranslator.Eq 1%Z; VMTranslator.Arithmetic VMTranslator.Eq 2%Z],
          VMTranslator.mkCounter 2%Z 0%Z 0%Z).
Proof.
  intros Ha H.
  destruct (parse_lines_ids a lines _ cmds c' Ha H) as [Hids _].
  assert (Hc : VMTranslator.counter_of a VMTranslator.fresh_counter = 0%Z)
    by (destruct Ha as [ -> | [ -> | -> ] ]; reflexivity).
  rewrite Hc in Hids.
  assert (Hz : VMTranslator.ids_of a cmds =
               map Z.of_nat (seq 1 (length (VMTranslator.ids_of a cmds)))).
  { rewrite Hids at 1. apply map_ext. lia. }
  split; [exact Hz|]. split; [|reflexivity].
  rewrite Hz, map_map. apply NoDup_map_on.
  - intros i j. apply comparison_labels_inj, Ha.
  - apply NoDup_seq.
Qed.

Lemma comparison_ids_distinct_witness :
  VMTranslator.is_comparison VMTranslator.Eq /\
  VMTranslator.ids_of VMTranslator.Eq
    [VMTranslator.Arithmetic VMTranslator.Eq 1%Z; VMTranslator.Arithmetic VMTranslator.Eq 2%Z] =
    map Z.of_nat (seq 1 2).
Proof.
  assert (Ha : VMTranslator.is_comparison VMTranslator.Eq) by (left; reflexivity).
  split; [exact Ha|].
  destruct (comparison_ids_distinct VMTranslator.Eq ["eq"; "eq"] _ _ Ha eq_refl) as [H _].
  exact H.
Defined.

(** C2: [call f n] is translated to the empty string: no return address, no
    saved frame, no jump and no return label are emitted (here for
    [call Foo.bar 3], whatever the calling function). *)
Theorem call_translates_to_nothing :
  VMTranslator.parse_line "call Foo.bar 3" VMTranslator.fresh_counter =
    Done (Some (VMTranslator.Function VMTranslator.Call (Some "Foo.bar") (Some 3%Z)),
          VMTranslator.fresh_counter) /\
  forall ctx : VMTranslator.Context,
    VMTranslator.function_to_asm_text VMTranslator.Call (Some "Foo.bar") (Some 3%Z) ctx =
    Done (Ok "").
Proof. split; [reflexivity | intros; reflexivity]. Qed.

(** ** Tokenizer: integer constants and block comments *)

Lemma digit_value_range (c : ascii) :
  is_ascii_digit c = true -> (0 <= digit_value c <= 9)%Z.
Proof.
  unfold is_ascii_digit, digit_value; intros H.
  apply andb_prop in H as [H1 H2].
  apply Nat.leb_le in H1; apply Nat.leb_le in H2; lia.
Qed.

Lemma decimal_value_ge (s : list ascii) (acc : Z) :
  forallb is_ascii_digit s = true -> (0 <= acc)%Z ->
  (acc <= Tokenizer.decimal_value acc s)%Z.
Proof.
  revert acc; induction s as [|c s IH]; intros acc Hs Hacc; simpl; [lia|].
  simpl in Hs; apply andb_prop in Hs as [Hc Hs].
  pose proof (digit_value_range c Hc).
  specialize (IH (acc * 10 + digit_value c)%Z Hs ltac:(lia)); lia.
Qed.

(** The checked accumulation of [from_str] computes the decimal value of
    an all-digit string, and fails exactly when a non-digit occurs or the
    value exceeds the bound. *)
Lemma uint_digits_decimal (max acc : Z) (s : list ascii) :
  (0 <= acc <= max)%Z ->
  uint_digits max acc (string_of_list_ascii s) =
  if (forallb is_ascii_digit s && (Tokenizer.decimal_value acc s <=? max)%Z)%bool
  then Some (Tokenizer.decimal_value acc s) else None.
Proof.
  revert acc; induction s as [|c s IH]; intros acc Hacc; simpl.
  - destruct (Z.leb_spec acc max); [reflexivity | lia].
  - destruct (is_ascii_digit c) eqn:Hc; simpl; [|reflexivity].
    pose proof (digit_value_range c Hc).
    destruct (Z.leb_spec (acc * 10 + digit_value c) max) as [Hle|Hgt].
    + apply IH; lia.
    + destruct (forallb is_ascii_digit s) eqn:Hs; simpl; [|reflexivity].
      pose proof (decimal_value_ge s (acc * 10 + digit_value c) Hs ltac:(lia)).
      destruct (Z.leb_spec (Tokenizer.decimal_value (acc * 10 + digit_value c) s) max);
        [lia | reflexivity].
Qed.

Lemma digit_not_symbol (d : ascii) :
  is_ascii_digit d = true -> Tokenizer.is_symbol d = false.
Proof. destruct d as [[] [] [] [] [] [] [] []]; intros H; (discriminate || reflexivity). Qed.

Lemma parse_u16_digit_first (d : ascii) (s : string) :
  is_ascii_digit d = true -> parse_u16 (String d s) = uint_digits 65535%Z 0%Z (String d s).
Proof. destruct d as [[] [] [] [] [] [] [] []]; intros H; (discriminate || reflexivity). Qed.

(** C7 (counterexample): the digit run 32768 is accepted as an integer
    constant, both by [extract_token] and by the whole tokenizer. *)
Lemma integer_constant_32768_accepted :
  Tokenizer.extract_token (list_ascii_of_string "32768") =
    Done (Ok (Tokenizer.IntegerConstant 32768%Z)) /\
  Tokenizer.generate_token_list ["let x = 32768;"] =
    Done [Tokenizer.Keyword "let"; Tokenizer.Identifier "x";
          Tokenizer.Symbol "="%char; Tokenizer.IntegerConstant 32768%Z;
          Tokenizer.Symbol ";"%char].
Proof. split; vm_compute; reflexivity. Qed.

(** C7 (amended): a stash beginning with an ASCII digit yields
    [IntegerConstant n] when it consists of digits only and its decimal value
    [n] is at most 65535 (the range of [u16]); otherwise the tokenizer
    panics.  The stash is the run of characters ended by whitespace or by a
    symbol other than '/'. *)
Theorem integer_constant_u16_range (d : ascii) (rest : list ascii) :
  is_ascii_digit d = true ->
  Tokenizer.extract_token (d :: rest) =
  if (forallb is_ascii_digit rest &&
      (Tokenizer.decimal_value 0 (d :: rest) <=? 65535)%Z)%bool
  then Done (Ok (Tokenizer.IntegerConstant (Tokenizer.decimal_value 0%Z (d :: rest))))
  else Panic.
Proof.
  intros Hd.
  unfold Tokenizer.extract_token.
  rewrite (digit_not_symbol d Hd), andb_false_r, Hd.
  change (string_of_list_ascii (d :: rest)) with (String d (string_of_list_ascii rest)).
  rewrite (parse_u16_digit_first d _ Hd).
  change (String d (string_of_list_ascii rest)) with (string_of_list_ascii (d :: rest)).
  rewrite (uint_digits_decimal 65535%Z 0%Z (d :: rest) ltac:(lia)).
  simpl forallb; rewrite Hd; simpl andb.
  destruct (forallb is_ascii_digit rest && _)%bool; reflexivity.
Qed.

Lemma integer_constant_u16_range_witness :
  Tokenizer.extract_token (list_ascii_of_string "65535") =
    Done (Ok (Tokenizer.IntegerConstant 65535%Z)) /\
  Tokenizer.extract_token (list_ascii_of_string "65536") = Panic.
Proof.
  split.
  - etransitivity;
      [ exact (integer_constant_u16_range "6"%char (list_ascii_of_string "5535") eq_refl)
      | vm_compute; reflexivity ].
  - etransitivity;
      [ exact (integer_constant_u16_range "6"%char (list_ascii_of_string "5536") eq_refl)
      | vm_compute; reflexivity ].
Defined.

(** C9: a block comment closed in the middle of a line leaves its closing
    '/' in the stash, which is emitted as a [Symbol '/'] by the next
    whitespace or symbol; a stash pending just before the opening "/*" is
    dropped.  Removing the comment gives a different token stream, on one
    line as on several lines. *)
Theorem block_comment_changes_tokens :
  Tokenizer.generate_token_list ["/* c */ ;"] =
    Done [Tokenizer.Symbol "/"%char; Tokenizer.Symbol ";"%char] /\
  Tokenizer.generate_token_list [" ;"] = Done [Tokenizer.Symbol ";"%char] /\
  Tokenizer.generate_token_list ["/* a"; "b */ ;"] =
    Done [Tokenizer.Symbol "/"%char; Tokenizer.Symbol ";"%char] /\
  Tokenizer.generate_token_list [""; " ;"] = Done [Tokenizer.Symbol ";"%char] /\
  Tokenizer.generate_token_list ["x/* c */;"] =
    Done [Tokenizer.Symbol "/"%char; Tokenizer.Symbol ";"%char] /\
  Tokenizer.generate_token_list ["x;"] =
    Done [Tokenizer.Identifier "x"; Tokenizer.Symbol ";"%char].
Proof. repeat split; vm_compute; reflexivity. Qed.

(** ** Parser and code generator *)

Module ParserProofs.
Import Tokenizer Parser.

Lemma bind_panics_or_ok {A} (m : run A) (k : A -> run string) :
  (m = Crash \/ exists a, m = Ret a) -> (forall a, panics_or_ok (k a)) ->
  panics_or_ok (mbind k m).
Proof.
  intros [-> | [a ->]] Hk; [left; reflexivity | apply Hk].
Qed.

Lemma ret_panics_or_ok (s : string) : panics_or_ok (Ret s).
Proof. right; eauto. Qed.

Lemma crash_panics_or_ok : panics_or_ok Crash.
Proof. left; reflexivity. Qed.

Create HintDb compile.
#[local] Hint Resolve ret_panics_or_ok crash_panics_or_ok : compile.

Lemma compile_op_total (o : ascii) : panics_or_ok (compile_op o).
Proof. unfold compile_op; repeat case_match; auto with compile. Qed.

Lemma compile_seq_total {A} (c : A -> run string) (xs : list A) :
  Forall (fun x => panics_or_ok (c x)) xs -> panics_or_ok (compile_seq c xs).
Proof.
  induction 1 as [|x xs Hx _ IH]; simpl; [auto with compile|].
  apply bind_panics_or_ok; [exact Hx|]; intros s.
  apply bind_panics_or_ok; [exact IH|]; auto with compile.
Qed.

Lemma compile_pairs_total (ct : Term -> run string) (ts : list Term) (os : list ascii) :
  Forall (fun t => panics_or_ok (ct t)) ts -> panics_or_ok (compile_pairs ct ts os).
Proof.
  intros H; revert os; induction H as [|t ts Ht _ IH]; intros [|o os]; simpl;
    auto with compile.
  apply bind_panics_or_ok; [exact Ht|]; intros s.
  apply bind_panics_or_ok; [apply compile_op_total|]; intros s'.
  apply bind_panics_or_ok; [apply IH|]; auto with compile.
Qed.

Section Total.
Variables (info : ParseInfo) (st : CompileState).

Lemma compile_total :
  (forall t, panics_or_ok (compile_term info st t)) /\
  (forall e, panics_or_ok (compile_expression info st e)) /\
  (forall c, panics_or_ok (compile_call info st c)).
Proof.
  set (P := fun t => panics_or_ok (compile_term info st t)).
  set (Q := fun e => panics_or_ok (compile_expression info st e)).
  set (R := fun c => panics_or_ok (compile_call info st c)).
  assert (H1 : forall v, P (Integer v)) by (intros; right; eexists; reflexivity).
  assert (H2 : forall s, P (StringT s)) by (intros; right; eexists; reflexivity).
  assert (H3 : forall k, P (KeywordT k))
    by (intros k; subst P; cbn; unfold compile_keyword; repeat case_match; auto with compile).
  assert (H4 : forall n, P (VarName n))
    by (intros n; subst P; cbn; unfold compile_var_name; repeat case_match; auto with compile).
  assert (H5 : forall n e, Q e -> P (ArrayVar n e)) by (intros; left; reflexivity).
  assert (H6 : forall c, R c -> P (Subroutine c)) by (intros c H; exact H).
  assert (H7 : forall e, Q e -> P (ExpresssionInParenthesis e)) by (intros e H; exact H).
  assert (H8 : forall o t, P t -> P (UnaryOp o t)).
  { intros o t IH; subst P; cbn -[mbind].
    apply bind_panics_or_ok; [exact IH|]; intros s; repeat case_match; auto with compile. }
  assert (H9 : forall ts os, Forall P ts -> Q (Expr ts os)).
  { intros ts os Hts; subst Q; destruct ts as [|t0 ts]; [simpl; auto with compile|].
    cbn -[mbind]; repeat case_match; auto with compile.
    inversion Hts; subst.
    apply bind_panics_or_ok; [assumption|]; intros s.
    apply bind_panics_or_ok; [apply compile_pairs_total; assumption|].
    auto with compile. }
  assert (H10 : forall n ps, Forall Q ps -> R (FunctionCall n ps)).
  { intros n ps Hps; subst R; cbn -[mbind].
    apply bind_panics_or_ok; [apply compile_seq_total; exact Hps|]; auto with compile. }
  assert (H11 : forall x f ps, Forall Q ps -> R (MethodCall x f ps)).
  { intros x f ps Hps; subst R; cbn -[mbind].
    apply bind_panics_or_ok; [apply compile_seq_total; exact Hps|].
    intros s; repeat case_match; auto with compile. }
  split; [|split].
  - exact (term_ind' P Q R H1 H2 H3 H4 H5 H6 H7 H8 H9 H10 H11).
  - exact (expr_ind' P Q R H1 H2 H3 H4 H5 H6 H7 H8 H9 H10 H11).
  - exact (call_ind' P Q R H1 H2 H3 H4 H5 H6 H7 H8 H9 H10 H11).
Qed.
End Total.

(** C10: a dotted call [X.f(args)] compiles the arguments only (the
    receiver [X] is never pushed), emits [call X.f n] with [n] the number of
    arguments, and looks up the return type under the literal key "X.f"
    formed from [X] as written; the lookup is unwrapped, so an absent key
    makes compilation panic, and no error value is ever returned. *)
Theorem method_call_lookup_literal_key (info : ParseInfo) (st : CompileState)
    (x f : string) (args : list Expression) :
  compile_call info st (MethodCall x f args) =
    match compile_expression_list info st args with
    | Ret pc =>
        match return_type info !! (x ++ "." ++ f) with
        | None => Crash
        | Some rt =>
            Ret (pc ++ call_line (x ++ "." ++ f) (length args) ++
                 match rt with Void => "pop temp 0" ++ NEW_LINE | _ => "" end)
        end
    | _ => Crash
    end /\
  (return_type info !! (x ++ "." ++ f) = None ->
   compile_call info st (MethodCall x f args) = Crash).
Proof.
  destruct (compile_seq_total (compile_expression info st) args) as [Hc | [pc Hc]].
  { apply List.Forall_forall; intros e _; apply (compile_total info st). }
  - cbn -[mbind]; unfold compile_expression_list; rewrite Hc.
    split; [reflexivity | intros _; reflexivity].
  - cbn -[mbind]; unfold compile_expression_list; rewrite Hc.
    split; [reflexivity | intros Hnone; cbn; rewrite Hnone; reflexivity].
Qed.

Lemma method_call_lookup_literal_key_witness :
  let info := mkParseInfo (mkClassTable ∅ 0 0)
                {[ "Main.main" := mkMethodTable {[ "g" := mkEntry Var (SClass "Game") 0 ]} 0 1 ]}
                (<[ "Game.run" := Void ]> (init_os_functions ∅)) in
  return_type info !! ("g" ++ "." ++ "run") = None /\
  compile_call info main_state (MethodCall "g" "run" []) = Crash.
Proof.
  intros info; split.
  - vm_compute; reflexivity.
  - apply (proj2 (method_call_lookup_literal_key info main_state "g" "run" [])).
    vm_compute; reflexivity.
Defined.

(** C4 (counterexample): [do Math.max(1,2);] calls a non-void OS function
    and [do draw(1);] is an unqualified call; neither is followed by
    [pop temp 0]. *)
Lemma do_call_without_pop :
  compile_do_line ParseInfo_new main_state "do Math.max(1,2);" =
    Ret ("push constant 1" ++ NEW_LINE ++ "push constant 2" ++ NEW_LINE ++
         "call Math.max 2" ++ NEW_LINE) /\
  compile_do_line ParseInfo_new main_state "do draw(1);" =
    Ret ("push constant 1" ++ NEW_LINE ++ "call draw 1" ++ NEW_LINE).
Proof. split; vm_compute; reflexivity. Qed.

(** C4 (amended): a dotted statement [do X.f(args);] that compiles emits
    the code of the arguments, then [call X.f n], followed by [pop temp 0]
    exactly when the return-type registry maps "X.f" to void. *)
Theorem do_method_call_pop_iff_void (info : ParseInfo) (st : CompileState)
    (x f : string) (args : list Expression) (code : string) :
  compile_do info st (mkDo (MethodCall x f args)) = Ret code ->
  exists pc rt,
    compile_expression_list info st args = Ret pc /\
    return_type info !! (x ++ "." ++ f) = Some rt /\
    code = pc ++ call_line (x ++ "." ++ f) (length args) ++
           match rt with Void => "pop temp 0" ++ NEW_LINE | _ => "" end.
Proof.
  unfold compile_do, compile_expression_list; intros H.
  cbn -[mbind String.append] in H.
  destruct (compile_seq (compile_expression info st) args) as [pc| | |];
    cbn -[String.append] in H; try discriminate H.
  destruct (return_type info !! (x ++ "." ++ f)) as [rt|];
    cbn -[String.append] in H; [|discriminate H].
  injection H as <-.
  exists pc, rt; auto.
Qed.

Lemma do_method_call_pop_iff_void_witness :
  exists pc rt,
    compile_expression_list ParseInfo_new main_state [Expr [Integer 1] []] = Ret pc /\
    return_type ParseInfo_new !! ("Output" ++ "." ++ "printInt") = Some rt /\
    "push constant 1" ++ NEW_LINE ++ "call Output.printInt 1" ++ NEW_LINE ++
      "pop temp 0" ++ NEW_LINE =
    pc ++ call_line ("Output" ++ "." ++ "printInt") (length [Expr [Integer 1] []]) ++
    match rt with Void => "pop temp 0" ++ NEW_LINE | _ => "" end.
Proof.
  apply (do_method_call_pop_iff_void ParseInfo_new main_state "Output" "printInt"
           [Expr [Integer 1] []]).
  vm_compute; reflexivity.
Defined.

(** One step of the [parse_expression] loop on an end symbol and on an
    integer constant. *)
Lemma parse_expression_end (f : nat) (tokens : list Token) (idx : nat)
    (terms : list Term) (ops : list ascii) :
  tokens !! idx = Some (Symbol ";"%char) ->
  parse_expression (S f) tokens idx terms ops = Ret (Expr terms ops, idx).
Proof. intros H; cbn [parse_expression]; unfold tok; rewrite H; reflexivity. Qed.

Lemma parse_expression_integer (f : nat) (tokens : list Token) (idx : nat)
    (terms : list Term) (ops : list ascii) (n : Z) :
  tokens !! idx = Some (IntegerConstant n) ->
  parse_expression (S (S f)) tokens idx terms ops =
  parse_expression (S f) tokens (S idx) (app terms [Integer n]) ops.
Proof. intros H; cbn [parse_expression parse_term]; unfold tok; rewrite H; reflexivity. Qed.

Lemma parse_expression_int_run (ns : list Z) :
  forall pre post terms ops fuel, length ns < fuel ->
  parse_expression fuel (app pre (app (map IntegerConstant ns) (Symbol ";"%char :: post)))
    (length pre) terms ops =
  Ret (Expr (app terms (map Integer ns)) ops, length pre + length ns).
Proof.
  induction ns as [|n ns IH]; intros pre post terms ops fuel Hfuel.
  - destruct fuel as [|f]; [simpl in Hfuel; lia|].
    rewrite parse_expression_end.
    + by rewrite app_nil_r, Nat.add_0_r.
    + rewrite lookup_app_r by lia; rewrite Nat.sub_diag; reflexivity.
  - simpl length in Hfuel. destruct fuel as [|[|f]]; try lia.
    rewrite (parse_expression_integer _ _ _ _ _ n);
      [|rewrite lookup_app_r by lia; rewrite Nat.sub_diag; reflexivity].
    replace (app pre (app (map IntegerConstant (n :: ns)) (Symbol ";"%char :: post)))
      with (app (app pre [IntegerConstant n]) (app (map IntegerConstant ns) (Symbol ";"%char :: post)))
      by (simpl; rewrite <- app_assoc; reflexivity).
    replace (S (length pre)) with (length (app pre [IntegerConstant n]))
      by (rewrite length_app; simpl; lia).
    rewrite IH by lia. rewrite length_app, <- app_assoc. simpl. f_equal. f_equal. lia.
Qed.

Lemma compile_expression_mismatch info st (terms : list Term) (ops : list ascii) :
  length terms - 1 <> length ops -> compile_expression info st (Expr terms ops) = Crash.
Proof.
  intros H. cbn [compile_expression]. destruct (Nat.eqb (length terms) 0); [reflexivity|].
  destruct (Nat.eqb_spec (length terms - 1) (length ops)); [contradiction|reflexivity].
Qed.

(** C6 (defect): [parse_expression] pushes a term for every term token and
    an operator for every binary-operator symbol with no check that they
    alternate. Any run [n0 n1 ... nk ;] of two or more integer constants is
    accepted with k+1 terms and no operator; [n0 ~ n1 ;] is accepted with two
    terms and no operator, the [~] being read as unary after a term. Every
    expression with |ops| <> |terms| - 1 makes [Expression::compile] fail its
    assertion. *)
Theorem expression_terms_ops_mismatch :
  (forall (ns : list Z) fuel, 2 <= length ns -> length ns < fuel ->
     parse_expression fuel (app (map IntegerConstant ns) [Symbol ";"%char]) 0 [] [] =
       Ret (Expr (map Integer ns) [], length ns) /\
     length ([] : list ascii) <> length (map Integer ns) - 1) /\
  (forall n0 n1 fuel, 4 <= fuel ->
     parse_expression fuel [IntegerConstant n0; Symbol "~"%char; IntegerConstant n1;
                            Symbol ";"%char] 0 [] [] =
       Ret (Expr [Integer n0; UnaryOp "~"%char (Integer n1)] [], 3)) /\
  (forall info st terms ops, length terms - 1 <> length ops ->
     compile_expression info st (Expr terms ops) = Crash).
Proof.
  split; [|split].
  - intros ns fuel Hlen Hfuel. split; [|rewrite length_map; simpl; lia].
    exact (parse_expression_int_run ns [] [] [] [] fuel Hfuel).
  - intros n0 n1 fuel Hfuel. do 4 (destruct fuel as [|fuel]; [lia|]). reflexivity.
  - exact compile_expression_mismatch.
Qed.

Lemma expression_terms_ops_mismatch_witness :
  parse_expression 10 [IntegerConstant 1; IntegerConstant 2; Symbol ";"%char] 0 [] [] =
    Ret (Expr [Integer 1; Integer 2] [], 2) /\
  parse_expression 10 [IntegerConstant 1; Symbol "~"%char; IntegerConstant 2;
                       Symbol ";"%char] 0 [] [] =
    Ret (Expr [Integer 1; UnaryOp "~"%char (Integer 2)] [], 3) /\
  compile_expression ParseInfo_new main_state (Expr [Integer 1; Integer 2] []) = Crash /\
  compile_expression ParseInfo_new main_state
    (Expr [Integer 1; UnaryOp "~"%char (Integer 2)] []) = Crash.
Proof.
  destruct expression_terms_ops_mismatch as (Hint & Hnot & Hcomp).
  split; [|split; [|split]].
  - exact (proj1 (Hint [1%Z; 2%Z] 10 ltac:(simpl; lia) ltac:(simpl; lia))).
  - apply Hnot; lia.
  - apply Hcomp. simpl; lia.
  - apply Hcomp. simpl; lia.
Defined.

End ParserProofs.

(** * Further properties of the toolchain *)
(** ** String helpers *)

Lemma list_ascii_of_string_app (a b : string) :
  list_ascii_of_string (a ++ b) = app (list_ascii_of_string a) (list_ascii_of_string b).
Proof. induction a as [|x a IH]; simpl; [reflexivity|by rewrite IH]. Qed.

Lemma string_of_list_ascii_app (a b : list ascii) :
  string_of_list_ascii (app a b) = string_of_list_ascii a ++ string_of_list_ascii b.
Proof. induction a as [|x a IH]; simpl; [reflexivity|by rewrite IH]. Qed.

Lemma list_ascii_of_string_inj (a b : string) :
  list_ascii_of_string a = list_ascii_of_string b -> a = b.
Proof.
  intros H. rewrite <- (string_of_list_ascii_of_string a), <- (string_of_list_ascii_of_string b), H.
  reflexivity.
Qed.

Lemma str_app_cancel_l (a b c : string) : a ++ b = a ++ c -> b = c.
Proof. induction a as [|x a IH]; simpl; [done|]. intros H. injection H. exact IH. Qed.

Lemma str_app_cancel_r (a b c : string) : a ++ c = b ++ c -> a = b.
Proof.
  intros H. apply list_ascii_of_string_inj.
  apply (f_equal list_ascii_of_string) in H. rewrite !list_ascii_of_string_app in H.
  by apply app_inv_tail in H.
Qed.

Lemma rev_string_app (a b : string) : rev_string (a ++ b) = rev_string b ++ rev_string a.
Proof.
  unfold rev_string. by rewrite list_ascii_of_string_app, rev_app_distr, string_of_list_ascii_app.
Qed.

Lemma rev_string_involutive (a : string) : rev_string (rev_string a) = a.
Proof.
  unfold rev_string. by rewrite list_ascii_of_string_of_list_ascii, rev_involutive,
    string_of_list_ascii_of_string.
Qed.

Lemma trim_start_app_nonws (a b : string) (c : ascii) :
  is_whitespace c = false -> trim_start (a ++ String c b) = trim_start a ++ String c b.
Proof.
  intros Hc. induction a as [|x a IH]; simpl; [by rewrite Hc|].
  destruct (is_whitespace x); [exact IH|reflexivity].
Qed.

Lemma trim_head (c : ascii) (x : string) :
  is_whitespace c = false -> exists y, trim (String c x) = String c y.
Proof.
  intros Hc. unfold trim.
  replace (trim_start (String c x)) with (String c "" ++ x) by (simpl; by rewrite Hc).
  rewrite rev_string_app.
  change (rev_string (String c "")) with (String c "").
  rewrite trim_start_app_nonws, rev_string_app by exact Hc.
  change (rev_string (String c "")) with (String c "").
  eauto.
Qed.

Lemma remove_comment_cons (y : ascii) (s : string) :
  y <> "/"%char -> remove_comment (String y s) = String y (remove_comment s).
Proof.
  intros Hy. destruct y as [[] [] [] [] [] [] [] []]; try reflexivity.
  exfalso. by apply Hy.
Qed.

Lemma remove_comment_at_marker (x r : string) :
  has_char "/" x = false -> remove_comment (x ++ "//" ++ r) = x.
Proof.
  induction x as [|y x IH]; [reflexivity|]. simpl has_char.
  intros H. apply orb_false_iff in H as [Hy Hx].
  change (String y x ++ "//" ++ r) with (String y (x ++ "//" ++ r)).
  rewrite remove_comment_cons, IH by (auto; intros ->; discriminate Hy).
  reflexivity.
Qed.

Lemma trim_comment (x r : string) :
  trim_start x = x -> exists r', trim (x ++ "//" ++ r) = x ++ "//" ++ r'.
Proof.
  intros Hx. unfold trim.
  change ("//" ++ r) with (String "/" ("/" ++ r)).
  rewrite trim_start_app_nonws, Hx by reflexivity.
  change (String "/" ("/" ++ r)) with ("//" ++ r).
  assert (E1 : rev_string (x ++ "//" ++ r) =
               rev_string r ++ String "/" (String "/" (rev_string x))).
  { rewrite !rev_string_app, str_app_assoc. reflexivity. }
  rewrite E1, trim_start_app_nonws by reflexivity.
  rewrite rev_string_app.
  change (String "/" (String "/" (rev_string x))) with ("//" ++ rev_string x).
  rewrite rev_string_app, rev_string_involutive, str_app_assoc.
  eexists. reflexivity.
Qed.

(** The code part of a line with a [//] comment, as [parse_line] computes it. *)
Lemma code_of_commented_line (x r : string) :
  trim_start x = x -> has_char "/" x = false ->
  remove_comment (trim (x ++ "//" ++ r)) = x.
Proof.
  intros Hx Hs. destruct (trim_comment x r Hx) as [r' ->].
  by apply remove_comment_at_marker.
Qed.

Lemma trim_start_id (x : string) :
  Forall (fun c => is_whitespace c = false) (list_ascii_of_string x) -> trim_start x = x.
Proof. destruct x as [|c x]; [reflexivity|]. intros Hf. inversion Hf; subst. simpl. by rewrite H1. Qed.

Lemma trim_id (x : string) :
  Forall (fun c => is_whitespace c = false) (list_ascii_of_string x) -> trim x = x.
Proof.
  intros Hf. unfold trim. rewrite (trim_start_id x Hf).
  rewrite (trim_start_id (rev_string x)); [apply rev_string_involutive|].
  unfold rev_string. rewrite list_ascii_of_string_of_list_ascii. by apply Forall_rev.
Qed.

Lemma remove_comment_id (x : string) : has_char "/" x = false -> remove_comment x = x.
Proof.
  induction x as [|y x IH]; [reflexivity|]. simpl has_char.
  intros H. apply orb_false_iff in H as [Hy Hx].
  rewrite remove_comment_cons, IH by (auto; intros ->; discriminate Hy). reflexivity.
Qed.

(** ** VM translator *)

Lemma asm_app (a b : list string) :
  VMTranslator.asm (app a b) = VMTranslator.asm a ++ VMTranslator.asm b.
Proof.
  induction a as [|x a IH]; simpl; [reflexivity|]. by rewrite IH, !str_app_assoc.
Qed.

Lemma concat_repeat_asm (xs : list string) (k : nat) :
  String.concat "" (repeat (VMTranslator.asm xs) k) = VMTranslator.asm (concat (repeat xs k)).
Proof.
  induction k as [|k IH]; [reflexivity|].
  cbn [repeat concat]. rewrite asm_app, <- IH.
  destruct k; simpl; [by rewrite str_app_nil_r|reflexivity].
Qed.

Lemma in_concat_repeat {A} (x : A) (xs : list A) (k : nat) :
  In x (concat (repeat xs k)) -> In x xs.
Proof.
  induction k as [|k IH]; simpl; [done|]. intros H. apply in_app_or in H as [H|H]; auto.
Qed.

Lemma parse_line_at_no_c (x : string) table lt ci rest :
  Assembler.parse_line (String "@" x) table = Done (lt, Assembler.CInst ci :: rest) -> False.
Proof.
  unfold Assembler.parse_line. destruct (trim_head "@" x eq_refl) as [y ->].
  rewrite remove_comment_cons by discriminate. cbv zeta iota.
  destruct (Assembler.a_new _ table); discriminate.
Qed.

Lemma parse_line_paren_no_c (x : string) table lt ci rest :
  Assembler.parse_line (String "(" x) table = Done (lt, Assembler.CInst ci :: rest) -> False.
Proof.
  unfold Assembler.parse_line. destruct (trim_head "(" x eq_refl) as [y ->].
  rewrite remove_comment_cons by discriminate. discriminate.
Qed.

Lemma has_char_app (x : ascii) (a b : string) :
  has_char x (a ++ b) = (has_char x a || has_char x b)%bool.
Proof. induction a as [|y a IH]; simpl; [reflexivity|]. by rewrite IH, orb_assoc. Qed.

Lemma split_char_app_sep (x : ascii) (a b : string) :
  has_char x a = false -> split_char x (a ++ String x b) = a :: split_char x b.
Proof.
  induction a as [|y a IH]; simpl; intros H.
  - by rewrite Ascii.eqb_refl.
  - apply orb_false_iff in H as [Hy Ha]. by rewrite Hy, IH.
Qed.

Ltac has_char_false :=
  rewrite ?has_char_app; simpl;
  repeat match goal with H : has_char _ _ = false |- _ => rewrite H end;
  reflexivity.

Lemma done_ok_inj (x y : string) : @Done (result string string) (Ok x) = Done (Ok y) -> x = y.
Proof. intros H. by injection H. Qed.

Ltac c_line_ok :=
  let H := fresh "H" in
  intros ?table ?lt ?ci ?rest H; cbn [String.append] in H;
  lazymatch type of H with
  | Assembler.parse_line (String "@" _) _ = _ =>
      exfalso; exact (parse_line_at_no_c _ _ _ _ _ H)
  | Assembler.parse_line (String "(" _) _ = _ =>
      exfalso; exact (parse_line_paren_no_c _ _ _ _ _ H)
  | _ =>
      vm_compute in H;
      first [ discriminate H
            | injection H; intros; subst; eexists; vm_compute; reflexivity ]
  end.

Ltac all_lines_ok :=
  let l := fresh "l" in let Hl := fresh "Hl" in
  intros l Hl; simpl in Hl;
  repeat (destruct Hl as [<-|Hl]; [c_line_ok|]); contradiction.

Lemma pretty_N_go_no_char (c : ascii) (x : N) (s : string) :
  (forall d, pretty_N_char d <> c) -> has_char c s = false ->
  has_char c (pretty_N_go x s) = false.
Proof.
  intros Hc. revert s. induction (N.lt_wf_0 x) as [x _ IH]; intros s Hs.
  assert (x = 0 \/ 0 < x)%N as [->|?] by lia.
  - by rewrite pretty_N_go_0.
  - rewrite pretty_N_go_step by done. apply IH; [by apply N.div_lt|].
    simpl. rewrite Hs, orb_false_r.
    destruct (Ascii.eqb_spec (pretty_N_char (x `mod` 10)) c); [|reflexivity].
    exfalso; eapply Hc; eassumption.
Qed.

Lemma fmt_Z_no_lf (z : Z) : has_char (ascii_of_nat 10) (fmt_Z z) = false.
Proof.
  unfold fmt_Z, pretty, pretty_N. case_decide; [reflexivity|].
  apply pretty_N_go_no_char; [|reflexivity].
  intros d. unfold pretty_N_char. by repeat case_match.
Qed.

Lemma asm_split_lf (ls : list string) :
  Forall (fun l => has_char (ascii_of_nat 10) l = false) ls ->
  split_char (ascii_of_nat 10) (VMTranslator.asm ls) = app ls [""].
Proof.
  induction 1 as [|l ls Hl _ IH]; [reflexivity|].
  cbn [VMTranslator.asm]. unfold VMTranslator.LF. cbn [String.append].
  rewrite split_char_app_sep by done. by rewrite IH.
Qed.

Lemma forall_concat_repeat {A} (P : A -> Prop) (xs : list A) (k : nat) :
  Forall P xs -> Forall P (concat (repeat xs k)).
Proof.
  rewrite !List.Forall_forall. intros H x Hx. apply H. by apply in_concat_repeat in Hx.
Qed.

Ltac lines_lf_free :=
  repeat (apply Forall_app; split);
  try apply forall_concat_repeat;
  repeat constructor;
  rewrite ?has_char_app, ?fmt_Z_no_lf;
  repeat match goal with H : has_char _ _ = false |- _ => rewrite H end;
  reflexivity.

Lemma translated_lines_encode (c : VMTranslator.Command)
  (ctx : VMTranslator.Context) (text : string) :
  has_char (ascii_of_nat 10) (VMTranslator.prefix ctx) = false ->
  match c with
  | VMTranslator.ProgramFlow _ s | VMTranslator.Function _ (Some s) _ =>
      has_char (ascii_of_nat 10) s = false
  | _ => True
  end ->
  VMTranslator.to_asm_text c ctx = Done (Ok text) ->
  exists ls, text = VMTranslator.asm ls /\
    Forall (fun l => has_char (ascii_of_nat 10) l = false) ls /\
    forall l, In l ls -> forall table lt ci rest,
      Assembler.parse_line l table = Done (lt, Assembler.CInst ci :: rest) ->
      exists bits, Assembler.c_to_binary_text ci = Ok bits.
Proof.
  intros Hp Hs H. destruct c as [a id|cmd seg idx|cmd sym|cmd name n];
    unfold VMTranslator.to_asm_text in H; cbv beta iota in H, Hs.
  - unfold VMTranslator.arithmetic_to_asm_text, VMTranslator.binary_asm,
      VMTranslator.unary_asm, VMTranslator.eq_asm, VMTranslator.lt_asm,
      VMTranslator.gt_asm in H.
    destruct a; cbv beta iota in H; apply done_ok_inj in H; subst text;
      (eexists; split; [reflexivity|split; [lines_lf_free|all_lines_ok]]).
  - unfold VMTranslator.memory_access_to_asm_text, VMTranslator.push_segment_asm,
      VMTranslator.pop_segment_asm in H.
    destruct cmd; try discriminate H; destruct seg; try discriminate H;
      cbv beta iota zeta in H; apply done_ok_inj in H; subst text;
      (eexists; split; [reflexivity|split; [lines_lf_free|all_lines_ok]]).
  - unfold VMTranslator.program_flow_to_asm_text in H.
    destruct cmd; try discriminate H;
      cbv beta iota zeta in H; apply done_ok_inj in H; subst text;
      (eexists; split; [reflexivity|split; [lines_lf_free|all_lines_ok]]).
  - unfold VMTranslator.function_to_asm_text in H.
    destruct cmd; try discriminate H.
    + destruct name as [f|]; [|discriminate H]. destruct n as [k|]; [|discriminate H].
      cbv beta iota in H. apply done_ok_inj in H; subst text.
      rewrite concat_repeat_asm, <- !asm_app.
      eexists; split; [reflexivity|split; [lines_lf_free|]].
      intros l Hl. apply in_app_or in Hl as [Hl|Hl]; [simpl in Hl;
        repeat (destruct Hl as [<-|Hl]; [c_line_ok|]); contradiction|].
      apply in_app_or in Hl as [Hl|Hl]; [apply in_concat_repeat in Hl|];
      simpl in Hl; repeat (destruct Hl as [<-|Hl]; [c_line_ok|]); contradiction.
    + apply done_ok_inj in H; subst text;
        (eexists; split; [reflexivity|split; [lines_lf_free|all_lines_ok]]).
    + apply done_ok_inj in H; subst text. exists []. split; [reflexivity|].
      split; [constructor|]. intros l [].
Qed.

(** Every line of the assembly text the VM translator emits for a command,
    split at newlines as the assembler reads it, is one the assembler can
    encode when it reads it as a C-instruction: its comp, dest and jump
    mnemonics are all in the Hack tables. The file prefix and the label or
    function name of the command are assumed free of newlines. *)
Theorem translated_c_instructions_assemble (c : VMTranslator.Command)
  (ctx : VMTranslator.Context) (text : string) :
  has_char (ascii_of_nat 10) (VMTranslator.prefix ctx) = false ->
  match c with
  | VMTranslator.ProgramFlow _ s | VMTranslator.Function _ (Some s) _ =>
      has_char (ascii_of_nat 10) s = false
  | _ => True
  end ->
  VMTranslator.to_asm_text c ctx = Done (Ok text) ->
  forall l, In l (split_char (ascii_of_nat 10) text) ->
  forall table lt ci rest,
    Assembler.parse_line l table = Done (lt, Assembler.CInst ci :: rest) ->
    exists bits, Assembler.c_to_binary_text ci = Ok bits.
Proof.
  intros Hp Hs H l Hl table lt ci rest Hline.
  destruct (translated_lines_encode c ctx text Hp Hs H) as (ls & -> & Hfree & Hok).
  rewrite asm_split_lf in Hl by exact Hfree.
  apply in_app_or in Hl as [Hl|[<-|[]]]; [by eapply Hok|].
  vm_compute in Hline. discriminate Hline.
Qed.




(** [MemoryAccess::to_asm_text] produces text exactly for a [push] of any
    segment and for a [pop] of any segment other than [constant]. *)
Theorem memory_access_ok_iff (cmd : VMTranslator.CommandType)
  (seg : VMTranslator.SegmentType) (i : Z) (ctx : VMTranslator.Context) :
  (exists text, VMTranslator.memory_access_to_asm_text cmd seg i ctx = Ok text) <->
  cmd = VMTranslator.Push \/ (cmd = VMTranslator.Pop /\ seg <> VMTranslator.Constant).
Proof.
  split.
  - intros [text H]. destruct cmd; try discriminate H; [by left|].
    right. split; [reflexivity|]. intros ->. discriminate H.
  - intros [-> | [-> Hs]]; [destruct seg; eexists; reflexivity|].
    destruct seg; try (eexists; reflexivity). by contradiction Hs.
Qed.




(** [label], [goto] and [if-goto] name the target [prefix.symbol]: two
    contexts with the same file prefix (for instance two functions of one
    file) resolve a label name to the same target, and distinct names to
    distinct targets. *)
Theorem flow_labels_scoped_by_file (ctx1 ctx2 : VMTranslator.Context) (s1 s2 : string) :
  VMTranslator.prefix ctx1 = VMTranslator.prefix ctx2 ->
  exists t1 t2,
    VMTranslator.program_flow_to_asm_text VMTranslator.CLabel s1 ctx1 =
      Ok (VMTranslator.asm ["(" ++ t1 ++ ")"]) /\
    VMTranslator.program_flow_to_asm_text VMTranslator.GoTo s2 ctx2 =
      Ok (VMTranslator.asm ["@" ++ t2; "0;JMP"]) /\
    VMTranslator.program_flow_to_asm_text VMTranslator.If s2 ctx2 =
      Ok (VMTranslator.asm ["@SP"; "AM=M-1"; "D=M"; "@" ++ t2; "D;JNE"]) /\
    (t1 = t2 <-> s1 = s2).
Proof.
  intros Hp. eexists _, _. split; [reflexivity|split; [reflexivity|split; [reflexivity|]]].
  rewrite Hp. split; [|by intros ->].
  intros H. apply str_app_cancel_l in H. by injection H.
Qed.

Lemma flow_labels_scoped_by_file_witness :
  exists t1 t2,
    VMTranslator.program_flow_to_asm_text VMTranslator.CLabel "LOOP"
      (VMTranslator.mkContext "Main" "Main.f" 0) = Ok (VMTranslator.asm ["(" ++ t1 ++ ")"]) /\
    VMTranslator.program_flow_to_asm_text VMTranslator.GoTo "LOOP"
      (VMTranslator.mkContext "Main" "Main.g" 1) = Ok (VMTranslator.asm ["@" ++ t2; "0;JMP"]) /\
    VMTranslator.program_flow_to_asm_text VMTranslator.If "LOOP"
      (VMTranslator.mkContext "Main" "Main.g" 1) =
      Ok (VMTranslator.asm ["@SP"; "AM=M-1"; "D=M"; "@" ++ t2; "D;JNE"]) /\
    (t1 = t2 <-> "LOOP" = "LOOP").
Proof.
  apply (flow_labels_scoped_by_file (VMTranslator.mkContext "Main" "Main.f" 0)
           (VMTranslator.mkContext "Main" "Main.g" 1)). reflexivity.
Defined.

Lemma translated_c_instructions_assemble_witness :
  exists bits, Assembler.c_to_binary_text (Assembler.mkC "0" (Some "M") None) = Ok bits.
Proof.
  apply (translated_c_instructions_assemble
           (VMTranslator.Function VMTranslator.CFunction (Some "Main.f") (Some 2%Z))
           (VMTranslator.mkContext "Main" "Main.f" 0)
           (VMTranslator.asm ["(Main.f)"; "@SP"; "A=M"; "M=0"; "A=A+1"; "M=0"; "A=A+1";
                              "D=A"; "@SP"; "M=D"])
           eq_refl eq_refl ltac:(vm_compute; reflexivity) "M=0"
           ltac:(vm_compute; tauto) ∅
           Assembler.CInstructionT (Assembler.mkC "0" (Some "M") None) []).
  vm_compute. reflexivity.
Defined.

(** ** Assembler *)


(** [CInstruction::new] reads back the text [dest=comp;jump] of an
    instruction whose fields contain neither [=] nor [;]. *)
Lemma c_new_text (ci : Assembler.CInstruction) :
  has_char "=" (Assembler.comp ci) = false -> has_char ";" (Assembler.comp ci) = false ->
  (forall d, Assembler.dest ci = Some d -> has_char "=" d = false /\ has_char ";" d = false) ->
  (forall j, Assembler.jump ci = Some j -> has_char "=" j = false /\ has_char ";" j = false) ->
  Assembler.c_new (Assembler.c_instruction_text ci) = Done ci.
Proof.
  destruct ci as [c od oj]; cbn [Assembler.comp Assembler.dest Assembler.jump].
  intros Hc1 Hc2 Hd Hj. unfold Assembler.c_new, Assembler.c_instruction_text.
  cbn [Assembler.comp Assembler.dest Assembler.jump].
  destruct od as [d|]; [destruct (Hd d eq_refl) as [Hd1 Hd2]|];
  (destruct oj as [j|]; [destruct (Hj j eq_refl) as [Hj1 Hj2]|]);
  clear Hd Hj; rewrite ?str_app_nil_r, ?str_app_assoc; cbn [String.append].
  - rewrite (split_char_app_sep "=" d), (split_char_absent "=" (c ++ String ";" j))
      by has_char_false.
    rewrite ?has_char_app; simpl; rewrite ?has_char_app; simpl.
    rewrite ?Hc1, ?Hc2, ?Hd1, ?Hd2, ?Hj1, ?Hj2. simpl.
    rewrite (split_char_app_sep ";" c), (split_char_absent ";" j) by has_char_false.
    reflexivity.
  - rewrite (split_char_app_sep "=" d), (split_char_absent "=" c) by has_char_false.
    rewrite ?has_char_app; simpl; rewrite ?has_char_app; simpl. rewrite ?Hc1, ?Hc2, ?Hd1, ?Hd2. reflexivity.
  - rewrite (split_char_app_sep ";" c), (split_char_absent ";" j) by has_char_false.
    rewrite ?has_char_app; simpl; rewrite ?has_char_app; simpl. rewrite ?Hc1, ?Hc2, ?Hj1, ?Hj2. reflexivity.
  - simpl. by rewrite Hc1, Hc2.
Qed.

Lemma assoc_some_value (k v : string) (l : list (string * string)) :
  Assembler.assoc k l = Some v -> In v (map snd l).
Proof.
  induction l as [|[k' v'] l IH]; simpl; [discriminate|].
  destruct (String.eqb k k'); [intros H; injection H as <-; by left|].
  intros H. right. by apply IH.
Qed.

Lemma assoc_some_key (k v : string) (l : list (string * string)) :
  Assembler.assoc k l = Some v -> In k (map fst l).
Proof.
  induction l as [|[k' v'] l IH]; simpl; [discriminate|].
  destruct (String.eqb_spec k k') as [->|_]; [intros _; by left|].
  intros H. right. by apply IH.
Qed.

Ltac bits_lit :=
  simpl; repeat (constructor; [first [left; reflexivity | right; reflexivity]|]); constructor.

Lemma bin_digits_bits (k : nat) (v : Z) :
  length (list_ascii_of_string (Assembler.bin_digits k v)) = k /\
  Forall (fun ch => ch = "0"%char \/ ch = "1"%char)
         (list_ascii_of_string (Assembler.bin_digits k v)).
Proof.
  revert v. induction k as [|k IH]; intros v; [split; [reflexivity|constructor]|].
  cbn [Assembler.bin_digits]. rewrite list_ascii_of_string_app, length_app.
  destruct (IH (Z.shiftr v 1)) as [IH1 IH2].
  split; [rewrite IH1; destruct (Z.testbit v 0); simpl; lia|].
  apply Forall_app. split; [exact IH2|].
  destruct (Z.testbit v 0); bits_lit.
Qed.

Lemma field_bits (tbl : list (string * string)) (n : nat) (x b : string) :
  Forall (fun v => length (list_ascii_of_string v) = n /\
                   Forall (fun ch => ch = "0"%char \/ ch = "1"%char) (list_ascii_of_string v))
         (map snd tbl) ->
  Assembler.assoc x tbl = Some b ->
  length (list_ascii_of_string b) = n /\
  Forall (fun ch => ch = "0"%char \/ ch = "1"%char) (list_ascii_of_string b).
Proof.
  intros Hf H. apply assoc_some_value in H. rewrite List.Forall_forall in Hf. by apply Hf.
Qed.

Ltac bits_table := apply (bool_decide_unpack _); vm_compute; reflexivity.

Lemma comp_table_bits :
  Forall (fun v => length (list_ascii_of_string v) = 7 /\
                   Forall (fun ch => ch = "0"%char \/ ch = "1"%char) (list_ascii_of_string v))
         (map snd Assembler.hack_comp_table).
Proof. bits_table. Qed.

Lemma dest_table_bits :
  Forall (fun v => length (list_ascii_of_string v) = 3 /\
                   Forall (fun ch => ch = "0"%char \/ ch = "1"%char) (list_ascii_of_string v))
         (map snd Assembler.hack_dest_table).
Proof. bits_table. Qed.

Lemma jump_table_bits :
  Forall (fun v => length (list_ascii_of_string v) = 3 /\
                   Forall (fun ch => ch = "0"%char \/ ch = "1"%char) (list_ascii_of_string v))
         (map snd Assembler.hack_jump_table).
Proof. bits_table. Qed.



Lemma ok_inj (x y : string) : @Ok string string x = Ok y -> x = y.
Proof. intros H. by injection H. Qed.

Theorem binary_text_shape (i : Assembler.Instruction) (s : string) :
  Assembler.to_binary_text i = Ok s ->
  exists b, s = b ++ Assembler.NL /\ length (list_ascii_of_string b) = 16 /\
    Forall (fun ch => ch = "0"%char \/ ch = "1"%char) (list_ascii_of_string b).
Proof.
  destruct i as [v|ci]; cbn [Assembler.to_binary_text].
  - unfold Assembler.a_to_binary_text. intros H. apply ok_inj in H. subst s. exists (Assembler.bin_digits 16 v).
    split; [reflexivity|]. apply bin_digits_bits.
  - unfold Assembler.c_to_binary_text.
    destruct (Assembler.comp_bits _) as [cb|] eqn:Ec; [|discriminate].
    destruct (Assembler.dest_bits _) as [db|] eqn:Ed; [|discriminate].
    destruct (Assembler.jump_bits _) as [jb|] eqn:Ej; [|discriminate].
    intros H. apply ok_inj in H. subst s.
    rewrite comp_bits_table in Ec. rewrite dest_bits_table in Ed. rewrite jump_bits_table in Ej.
    destruct (Assembler.spec_field Assembler.hack_jump_table (Assembler.jump ci)) as [jb'|] eqn:Ej';
      [|discriminate Ej]. injection Ej as <-.
    destruct (field_bits _ 7 _ _ comp_table_bits Ec) as [Lc Bc].
    assert (Hd : length (list_ascii_of_string db) = 3 /\
                 Forall (fun ch => ch = "0"%char \/ ch = "1"%char) (list_ascii_of_string db)).
    { destruct (Assembler.dest ci); cbn [Assembler.spec_field] in Ed;
        [apply (field_bits _ 3 _ _ dest_table_bits Ed)|injection Ed as <-; split; [reflexivity|bits_lit]]. }
    assert (Hj : length (list_ascii_of_string jb') = 3 /\
                 Forall (fun ch => ch = "0"%char \/ ch = "1"%char) (list_ascii_of_string jb')).
    { destruct (Assembler.jump ci); cbn [Assembler.spec_field] in Ej';
        [apply (field_bits _ 3 _ _ jump_table_bits Ej')|injection Ej' as <-; split; [reflexivity|bits_lit]]. }
    destruct Hd as [Ld Bd], Hj as [Lj Bj].
    exists ("111" ++ cb ++ db ++ jb'). split; [by rewrite !str_app_assoc|].
    rewrite !list_ascii_of_string_app, !length_app, Lc, Ld, Lj. split; [reflexivity|].
    repeat (apply Forall_app; split); auto. bits_lit.
Qed.



Lemma binary_text_shape_witness :
  exists b, "1110001100001000" ++ Assembler.NL = b ++ Assembler.NL /\
    length (list_ascii_of_string b) = 16 /\
    Forall (fun ch => ch = "0"%char \/ ch = "1"%char) (list_ascii_of_string b).
Proof.
  apply (binary_text_shape (Assembler.CInst (Assembler.mkC "D" (Some "M") None))).
  vm_compute. reflexivity.
Defined.

(** ** Assembler: lines of source text *)

Lemma parse_line_a_code (line x : string) (table : gmap string Z) :
  remove_comment (trim line) = String "@" x ->
  Assembler.parse_line line table =
    bind_out (Assembler.a_new (String "@" x) table)
             (fun v => Done (Assembler.AInstruction, [Assembler.AInst v])).
Proof. intros H. unfold Assembler.parse_line. rewrite H. reflexivity. Qed.

Lemma parse_line_c_code (line x : string) (table : gmap string Z) :
  remove_comment (trim line) = x -> x <> "" ->
  has_char "@" x = false -> has_char "(" x = false ->
  Assembler.parse_line line table =
    bind_out (Assembler.c_new x)
             (fun ci => Done (Assembler.CInstructionT, [Assembler.CInst ci])).
Proof.
  intros H Hne Ha Hp. unfold Assembler.parse_line. rewrite H.
  destruct x as [|c y]; [contradiction|].
  simpl in Ha, Hp. apply orb_false_iff in Ha as [Ha _]. apply orb_false_iff in Hp as [Hp _].
  destruct c as [[] [] [] [] [] [] [] []]; (reflexivity || discriminate Ha || discriminate Hp).
Qed.

Lemma digit_char_facts (c : ascii) :
  is_ascii_digit c = true ->
  is_whitespace c = false /\ Ascii.eqb c "/" = false /\ Ascii.eqb c "@" = false.
Proof. destruct c as [[] [] [] [] [] [] [] []]; intros H; (discriminate H || auto). Qed.

Lemma digits_facts (ds : list ascii) :
  forallb is_ascii_digit ds = true ->
  Forall (fun c => is_whitespace c = false) ds /\
  has_char "/" (string_of_list_ascii ds) = false /\
  has_char "@" (string_of_list_ascii ds) = false.
Proof.
  induction ds as [|d ds IH]; simpl; [repeat split; constructor|].
  intros H. apply andb_prop in H as [Hd Hs].
  destruct (digit_char_facts d Hd) as (H1 & H2 & H3). destruct (IH Hs) as (I1 & I2 & I3).
  rewrite H2, H3, I2, I3. split; [constructor; assumption|split; reflexivity].
Qed.

Lemma uint_digits_space (max acc : Z) (s : string) :
  uint_digits max acc (s ++ " ") = None.
Proof.
  revert acc. induction s as [|c s IH]; intros acc; [reflexivity|].
  simpl. destruct (is_ascii_digit c); [|reflexivity].
  destruct (_ <=? max)%Z; [apply IH|reflexivity].
Qed.

Lemma parse_unsigned_cases (max : Z) (s : string) :
  parse_unsigned max s = uint_digits max 0 s \/ parse_unsigned max s = None \/
  exists rest, s = String "+" rest /\ parse_unsigned max s = uint_digits max 0 rest.
Proof.
  destruct s as [|c t]; [right; left; reflexivity|].
  destruct c as [[] [] [] [] [] [] [] []]; destruct t as [|c' t];
    first [left; reflexivity | right; left; reflexivity
          | right; right; eexists; split; reflexivity].
Qed.

Lemma parse_unsigned_space (max : Z) (s : string) :
  parse_unsigned max (s ++ " ") = None.
Proof.
  destruct (parse_unsigned_cases max (s ++ " ")) as [->| [->| (rest & Hs & ->)]];
    [apply uint_digits_space|reflexivity|].
  destruct s as [|c s]; [discriminate Hs|]. injection Hs as _ <-. apply uint_digits_space.
Qed.

Lemma collect_map_lookup_key (l : list (string * Z)) (k : string) (v : Z) :
  Assembler.collect_map l !! k = Some v -> In k (map fst l).
Proof.
  unfold Assembler.collect_map.
  assert (G : forall m : gmap string Z, fold_left (fun m kv => <[kv.1 := kv.2]> m) l m !! k = Some v ->
                        m !! k = Some v \/ In k (map fst l)).
  { induction l as [|[k' v'] l IH]; intros m H; simpl in *; [by left|].
    destruct (IH _ H) as [H'|H']; [|by right; right].
    apply lookup_insert_Some in H' as [[-> _]|[_ H']]; [by right; left|by left]. }
  intros H. destruct (G _ H) as [H'|H']; [by rewrite lookup_empty in H'|exact H'].
Qed.

Lemma predefined_no_trailing_space (s : string) (lines : list string) :
  Assembler.main_symbol_table lines !! (s ++ " ") = None.
Proof.
  destruct (_ !! _) as [v|] eqn:E; [|reflexivity]. exfalso.
  apply collect_map_lookup_key in E.
  assert (K : Forall (fun k => hd "x"%char (rev (list_ascii_of_string k)) <> " "%char)
                     (map fst Assembler.PREDEFINED_SYMBOL))
    by (apply (bool_decide_unpack _); vm_compute; reflexivity).
  rewrite List.Forall_forall in K. specialize (K _ E).
  rewrite list_ascii_of_string_app, rev_app_distr in K. by apply K.
Qed.

Lemma a_code_of_commented_line (x r : string) :
  has_char "/" x = false -> remove_comment (trim (String "@" x ++ "//" ++ r)) = String "@" x.
Proof. intros H. apply code_of_commented_line; [reflexivity|exact H]. Qed.

Lemma a_new_numeric (ds : list ascii) (table : gmap string Z) :
  ds <> [] -> forallb is_ascii_digit ds = true ->
  (Tokenizer.decimal_value 0 ds <= 65535)%Z ->
  Assembler.a_new (String "@" (string_of_list_ascii ds)) table =
    Done (Tokenizer.decimal_value 0 ds).
Proof.
  intros Hne Hd Hv. destruct (digits_facts ds Hd) as (_ & _ & Hat).
  unfold Assembler.a_new. cbn [split_char Ascii.eqb Bool.eqb].
  rewrite (split_char_absent _ _ Hat). cbn [index nth_error bind_out].
  destruct ds as [|d rest]; [contradiction|].
  pose proof Hd as Hd'. simpl in Hd'. apply andb_prop in Hd' as [Hd1 _].
  change (string_of_list_ascii (d :: rest)) with (String d (string_of_list_ascii rest)).
  rewrite (parse_u16_digit_first d _ Hd1).
  change (String d (string_of_list_ascii rest)) with (string_of_list_ascii (d :: rest)).
  rewrite (uint_digits_decimal 65535%Z 0%Z (d :: rest)) by lia.
  rewrite Hd. apply Z.leb_le in Hv. rewrite Hv. reflexivity.
Qed.

(** A numeric A-instruction [@n], [n] a run of decimal digits of value at
    most 65535, is parsed to that value whatever the symbol table, also when
    an inline comment [//...] follows it directly. *)
Theorem numeric_a_instruction_line (ds : list ascii) (r : string) (table : gmap string Z) :
  ds <> [] -> forallb is_ascii_digit ds = true ->
  (Tokenizer.decimal_value 0 ds <= 65535)%Z ->
  Assembler.parse_line (String "@" (string_of_list_ascii ds)) table =
    Done (Assembler.AInstruction, [Assembler.AInst (Tokenizer.decimal_value 0 ds)]) /\
  Assembler.parse_line (String "@" (string_of_list_ascii ds) ++ "//" ++ r) table =
    Done (Assembler.AInstruction, [Assembler.AInst (Tokenizer.decimal_value 0 ds)]).
Proof.
  intros Hne Hd Hv. destruct (digits_facts ds Hd) as (Hws & Hsl & _).
  pose proof (a_new_numeric ds table Hne Hd Hv) as Hnew.
  split.
  - rewrite (parse_line_a_code _ (string_of_list_ascii ds) table), Hnew; [reflexivity|].
    rewrite remove_comment_id, trim_id; [reflexivity| |].
    + cbn [list_ascii_of_string]. rewrite list_ascii_of_string_of_list_ascii.
      constructor; [reflexivity|exact Hws].
    + rewrite trim_id; [exact Hsl|].
      cbn [list_ascii_of_string]. rewrite list_ascii_of_string_of_list_ascii.
      constructor; [reflexivity|exact Hws].
  - rewrite (parse_line_a_code _ _ _ (a_code_of_commented_line _ r Hsl)), Hnew. reflexivity.
Qed.

Lemma numeric_a_instruction_line_witness :
  Assembler.parse_line "@42" ∅ = Done (Assembler.AInstruction, [Assembler.AInst 42%Z]) /\
  Assembler.parse_line ("@42" ++ "// answer") ∅ =
    Done (Assembler.AInstruction, [Assembler.AInst 42%Z]).
Proof.
  exact (numeric_a_instruction_line ["4"%char; "2"%char] "// answer" ∅
           ltac:(discriminate) eq_refl ltac:(vm_compute; discriminate)).
Defined.

(** An A-instruction followed by a space and then an inline comment,
    [@x //...], panics: the comment is removed after trimming, so the
    operand read is [x] with a trailing space, which is neither a u16
    numeral nor a key of the predefined table. *)
Theorem a_instruction_space_before_comment (lines : list string) (sym r : string) :
  has_char "@" sym = false -> has_char "/" sym = false ->
  Assembler.parse_line (String "@" sym ++ " //" ++ r) (Assembler.main_symbol_table lines) = Panic.
Proof.
  intros Ha Hs.
  assert (E : String "@" sym ++ " //" ++ r = String "@" (sym ++ " ") ++ "//" ++ r)
    by (cbn [String.append]; rewrite str_app_assoc; reflexivity).
  rewrite E, (parse_line_a_code _ (sym ++ " "))
    by (apply a_code_of_commented_line; rewrite has_char_app, Hs; reflexivity).
  unfold Assembler.a_new. cbn [split_char Ascii.eqb Bool.eqb].
  rewrite (split_char_absent "@" (sym ++ " ")) by (rewrite has_char_app, Ha; reflexivity).
  cbn [index nth_error bind_out]. unfold parse_u16.
  rewrite parse_unsigned_space, predefined_no_trailing_space. reflexivity.
Qed.

Lemma a_instruction_space_before_comment_witness :
  has_char "@" "5" = false /\ has_char "/" "5" = false /\
  Assembler.parse_line ("@5" ++ " //" ++ " load five")
    (Assembler.main_symbol_table ["@5 // load five"]) = Panic.
Proof.
  split; [reflexivity|]. split; [reflexivity|].
  exact (a_instruction_space_before_comment ["@5 // load five"] "5" " load five" eq_refl eq_refl).
Defined.

Lemma str_app_neq_nil_l (a b : string) : a <> "" -> a ++ b <> "".
Proof. destruct a; [contradiction|discriminate]. Qed.

Lemma str_app_neq_nil_r (a b : string) : b <> "" -> a ++ b <> "".
Proof. destruct a; [auto|discriminate]. Qed.

Lemma trim_start_nonws_head (x s : string) :
  x <> "" -> Forall (fun c => is_whitespace c = false) (list_ascii_of_string x) ->
  trim_start (x ++ s) = x ++ s.
Proof.
  destruct x as [|c x]; [contradiction|]. intros _ Hf. inversion Hf as [|? ? Hc]; subst.
  simpl. by rewrite Hc.
Qed.

Lemma comp_key_facts :
  Forall (fun k => has_char "=" k = false /\ has_char ";" k = false /\ has_char "/" k = false /\
                   has_char "@" k = false /\ has_char "(" k = false /\ k <> "" /\
                   Forall (fun c => is_whitespace c = false) (list_ascii_of_string k) /\
                   Assembler.assoc (k ++ " ") Assembler.hack_comp_table = None)
         (map fst Assembler.hack_comp_table).
Proof. apply (bool_decide_unpack _); vm_compute; reflexivity. Qed.

Lemma dest_key_facts :
  Forall (fun k => has_char "=" k = false /\ has_char ";" k = false /\ has_char "/" k = false /\
                   has_char "@" k = false /\ has_char "(" k = false /\ k <> "" /\
                   Forall (fun c => is_whitespace c = false) (list_ascii_of_string k))
         (map fst Assembler.hack_dest_table).
Proof. apply (bool_decide_unpack _); vm_compute; reflexivity. Qed.

Lemma jump_key_facts :
  Forall (fun k => has_char "=" k = false /\ has_char ";" k = false /\ has_char "/" k = false /\
                   has_char "@" k = false /\ has_char "(" k = false /\
                   Forall (fun c => is_whitespace c = false) (list_ascii_of_string k) /\
                   Assembler.assoc (k ++ " ") Assembler.hack_jump_table = None)
         (map fst Assembler.hack_jump_table).
Proof. apply (bool_decide_unpack _); vm_compute; reflexivity. Qed.

Lemma c_fields_of_ok (ci : Assembler.CInstruction) (bits : string) :
  Assembler.c_to_binary_text ci = Ok bits ->
  In (Assembler.comp ci) (map fst Assembler.hack_comp_table) /\
  (forall d, Assembler.dest ci = Some d -> In d (map fst Assembler.hack_dest_table)) /\
  (forall j, Assembler.jump ci = Some j -> In j (map fst Assembler.hack_jump_table)).
Proof.
  unfold Assembler.c_to_binary_text.
  rewrite comp_bits_table, dest_bits_table, jump_bits_table.
  destruct (Assembler.assoc (Assembler.comp ci) _) eqn:Ec; [|discriminate].
  destruct (Assembler.spec_field _ (Assembler.dest ci)) eqn:Ed; [|discriminate].
  destruct (Assembler.spec_field _ (Assembler.jump ci)) eqn:Ej; [|discriminate].
  intros _. split; [by eapply assoc_some_key|].
  split; intros ? E; rewrite E in *; cbn [Assembler.spec_field] in *; by eapply assoc_some_key.
Qed.

Ltac field_facts H :=
  let F := fresh in
  lazymatch type of H with
  | In _ (map fst Assembler.hack_comp_table) => pose proof comp_key_facts as F
  | In _ (map fst Assembler.hack_dest_table) => pose proof dest_key_facts as F
  | In _ (map fst Assembler.hack_jump_table) => pose proof jump_key_facts as F
  end;
  rewrite List.Forall_forall in F; specialize (F _ H); clear H; rename F into H.

Ltac nonws_lits :=
  rewrite ?list_ascii_of_string_app;
  repeat (apply Forall_app; split); first [assumption | simpl; repeat constructor].

(** The text [dest=comp;jump] of an instruction that encodes: it is not
    empty, has no [/], [@], [(] and no whitespace, and [CInstruction::new]
    reads it back. *)
Lemma c_text_ok (ci : Assembler.CInstruction) (bits : string) :
  Assembler.c_to_binary_text ci = Ok bits ->
  Assembler.c_instruction_text ci <> "" /\
  has_char "/" (Assembler.c_instruction_text ci) = false /\
  has_char "@" (Assembler.c_instruction_text ci) = false /\
  has_char "(" (Assembler.c_instruction_text ci) = false /\
  Forall (fun c => is_whitespace c = false) (list_ascii_of_string (Assembler.c_instruction_text ci)) /\
  Assembler.c_new (Assembler.c_instruction_text ci) = Done ci.
Proof.
  intros H. destruct (c_fields_of_ok _ _ H) as (Hc & Hd & Hj). clear H.
  destruct ci as [c od oj]; cbn [Assembler.comp Assembler.dest Assembler.jump] in *.
  field_facts Hc. destruct Hc as (Hc1 & Hc2 & Hc3 & Hc4 & Hc5 & Hc6 & Hc7 & _).
  assert (Hd' : forall d, od = Some d ->
            has_char "=" d = false /\ has_char ";" d = false /\ has_char "/" d = false /\
            has_char "@" d = false /\ has_char "(" d = false /\ d <> "" /\
            Forall (fun c => is_whitespace c = false) (list_ascii_of_string d))
    by (intros d Ed; specialize (Hd d Ed); field_facts Hd; exact Hd).
  assert (Hj' : forall j, oj = Some j ->
            has_char "=" j = false /\ has_char ";" j = false /\ has_char "/" j = false /\
            has_char "@" j = false /\ has_char "(" j = false /\
            Forall (fun c => is_whitespace c = false) (list_ascii_of_string j))
    by (intros j Ej; specialize (Hj j Ej); field_facts Hj; destruct Hj as (? & ? & ? & ? & ? & ? & _);
        repeat split; assumption).
  clear Hd Hj.
  assert (Hnew : Assembler.c_new (Assembler.c_instruction_text (Assembler.mkC c od oj)) =
                 Done (Assembler.mkC c od oj)).
  { apply c_new_text; cbn [Assembler.comp Assembler.dest Assembler.jump]; [exact Hc1|exact Hc2| |].
    - intros d Ed. destruct (Hd' d Ed) as (? & ? & _). split; assumption.
    - intros j Ej. destruct (Hj' j Ej) as (? & ? & _). split; assumption. }
  rewrite Hnew. unfold Assembler.c_instruction_text. cbn [Assembler.comp Assembler.dest Assembler.jump].
  destruct od as [d|];
    [destruct (Hd' d eq_refl) as (Hd1 & Hd2 & Hd3 & Hd4 & Hd5 & Hd6 & Hd7)|]; clear Hd'.
  all: destruct oj as [j|];
    [destruct (Hj' j eq_refl) as (Hj1 & Hj2 & Hj3 & Hj4 & Hj5 & Hj6)|]; clear Hj'.
  all: split; [apply str_app_neq_nil_r, str_app_neq_nil_l; exact Hc6|].
  all: split; [has_char_false|]. all: split; [has_char_false|]. all: split; [has_char_false|].
  all: split; [|reflexivity].
  all: rewrite ?list_ascii_of_string_app.
  all: repeat (apply Forall_app; split).
  all: first [assumption | cbn [list_ascii_of_string]; repeat constructor].
Qed.

(** Appending a space to the text of an instruction that encodes gives the
    text of an instruction whose last field carries the space, which
    [CInstruction::new] reads back and which does not encode. *)
Lemma c_text_space (ci : Assembler.CInstruction) (bits : string) :
  Assembler.c_to_binary_text ci = Ok bits ->
  exists ci', Assembler.c_instruction_text ci' = Assembler.c_instruction_text ci ++ " " /\
    Assembler.c_new (Assembler.c_instruction_text ci') = Done ci' /\
    exists e, Assembler.c_to_binary_text ci' = Err e.
Proof.
  intros H. pose proof H as H0. destruct (c_fields_of_ok _ _ H) as (Hc & Hd & Hj).
  destruct ci as [c od oj]; cbn [Assembler.comp Assembler.dest Assembler.jump] in *.
  unfold Assembler.c_to_binary_text in H0. cbn [Assembler.comp Assembler.dest Assembler.jump] in H0.
  destruct (Assembler.comp_bits c) as [cb|] eqn:Ec; [|discriminate H0].
  destruct (Assembler.dest_bits od) as [db|] eqn:Ed; [|discriminate H0].
  field_facts Hc. destruct Hc as (Hc1 & Hc2 & _ & _ & _ & _ & _ & Hc8).
  assert (Hd' : forall d, od = Some d -> has_char "=" d = false /\ has_char ";" d = false)
    by (intros d E; specialize (Hd d E); field_facts Hd; destruct Hd as (? & ? & _); split; assumption).
  destruct oj as [j|].
  - specialize (Hj j eq_refl). field_facts Hj. destruct Hj as (Hj1 & Hj2 & _ & _ & _ & _ & Hj7).
    exists (Assembler.mkC c od (Some (j ++ " "))). split; [|split].
    + unfold Assembler.c_instruction_text. cbn [Assembler.comp Assembler.dest Assembler.jump].
      by rewrite !str_app_assoc.
    + apply c_new_text; cbn [Assembler.comp Assembler.dest Assembler.jump]; [exact Hc1|exact Hc2|exact Hd'|].
      intros j' [= <-]. split; has_char_false.
    + unfold Assembler.c_to_binary_text. cbn [Assembler.comp Assembler.dest Assembler.jump].
      rewrite Ec, Ed, jump_bits_table. cbn [Assembler.spec_field]. rewrite Hj7. eexists; reflexivity.
  - exists (Assembler.mkC (c ++ " ") od None). split; [|split].
    + unfold Assembler.c_instruction_text. cbn [Assembler.comp Assembler.dest Assembler.jump].
      by rewrite !str_app_nil_r, !str_app_assoc.
    + apply c_new_text; cbn [Assembler.comp Assembler.dest Assembler.jump];
        [has_char_false|has_char_false|exact Hd'|discriminate].
    + unfold Assembler.c_to_binary_text. cbn [Assembler.comp Assembler.dest Assembler.jump].
      rewrite comp_bits_table, Hc8. eexists; reflexivity.
Qed.

(** A C-instruction that encodes, written as [dest=comp;jump] (the [dest=]
    and [;jump] parts only when present), is parsed back to the same
    instruction whatever the symbol table, also when an inline comment
    [//...] follows it directly. *)
Theorem c_instruction_line_roundtrip (ci : Assembler.CInstruction) (bits r : string)
    (table : gmap string Z) :
  Assembler.c_to_binary_text ci = Ok bits ->
  Assembler.parse_line (Assembler.c_instruction_text ci) table =
    Done (Assembler.CInstructionT, [Assembler.CInst ci]) /\
  Assembler.parse_line (Assembler.c_instruction_text ci ++ "//" ++ r) table =
    Done (Assembler.CInstructionT, [Assembler.CInst ci]).
Proof.
  intros H. destruct (c_text_ok ci bits H) as (Hne & Hs & Ha & Hp & Hw & Hnew). split.
  - rewrite (parse_line_c_code _ (Assembler.c_instruction_text ci)), Hnew; auto.
    rewrite trim_id, remove_comment_id; auto.
  - rewrite (parse_line_c_code _ (Assembler.c_instruction_text ci)), Hnew; auto.
    apply code_of_commented_line; [apply trim_start_id; exact Hw|exact Hs].
Qed.

Lemma c_instruction_line_roundtrip_witness :
  Assembler.parse_line "AM=D+M;JMP" ∅ =
    Done (Assembler.CInstructionT, [Assembler.CInst (Assembler.mkC "D+M" (Some "AM") (Some "JMP"))]) /\
  Assembler.parse_line ("AM=D+M;JMP" ++ "//" ++ " loop") ∅ =
    Done (Assembler.CInstructionT, [Assembler.CInst (Assembler.mkC "D+M" (Some "AM") (Some "JMP"))]).
Proof.
  exact (c_instruction_line_roundtrip (Assembler.mkC "D+M" (Some "AM") (Some "JMP"))
           ("1111000010101111" ++ Assembler.NL) " loop" ∅ eq_refl).
Defined.

(** A C-instruction that encodes, followed by a space and then an inline
    comment, [dest=comp;jump //...], is parsed to an instruction that does
    not encode: the comment is removed after trimming, so the last field
    read keeps the trailing space. *)
Theorem c_instruction_space_before_comment (ci : Assembler.CInstruction) (bits r : string)
    (table : gmap string Z) :
  Assembler.c_to_binary_text ci = Ok bits ->
  exists ci', Assembler.parse_line (Assembler.c_instruction_text ci ++ " //" ++ r) table =
    Done (Assembler.CInstructionT, [Assembler.CInst ci']) /\
    exists e, Assembler.c_to_binary_text ci' = Err e.
Proof.
  intros H. destruct (c_text_ok ci bits H) as (Hne & Hs & Ha & Hp & Hw & _).
  destruct (c_text_space ci bits H) as (ci' & Ht & Hn & He).
  exists ci'. split; [|exact He].
  assert (E : Assembler.c_instruction_text ci ++ " //" ++ r =
              (Assembler.c_instruction_text ci ++ " ") ++ "//" ++ r)
    by (rewrite str_app_assoc; reflexivity).
  rewrite E, (parse_line_c_code _ (Assembler.c_instruction_text ci ++ " ")), <- Ht, Hn;
    [reflexivity| |apply str_app_neq_nil_l; exact Hne
    |rewrite has_char_app, Ha; reflexivity|rewrite has_char_app, Hp; reflexivity].
  apply code_of_commented_line;
    [apply trim_start_nonws_head; assumption|rewrite has_char_app, Hs; reflexivity].
Qed.

Lemma c_instruction_space_before_comment_witness :
  exists ci', Assembler.parse_line
      (Assembler.c_instruction_text (Assembler.mkC "M" (Some "D") None) ++ " //" ++ " load") ∅ =
    Done (Assembler.CInstructionT, [Assembler.CInst ci']) /\
    exists e, Assembler.c_to_binary_text ci' = Err e.
Proof.
  exact (c_instruction_space_before_comment (Assembler.mkC "M" (Some "D") None)
           ("1111110000010000" ++ Assembler.NL) " load" ∅ eq_refl).
Defined.

(** [CInstruction::new] reads back the text [dest=comp;jump] (the [dest=]
    and [;jump] parts only when present) of any instruction whose fields
    contain neither [=] nor [;]. *)
Theorem c_new_reads_text (ci : Assembler.CInstruction) :
  has_char "=" (Assembler.comp ci) = false -> has_char ";" (Assembler.comp ci) = false ->
  (forall d, Assembler.dest ci = Some d -> has_char "=" d = false /\ has_char ";" d = false) ->
  (forall j, Assembler.jump ci = Some j -> has_char "=" j = false /\ has_char ";" j = false) ->
  Assembler.c_new (Assembler.c_instruction_text ci) = Done ci.
Proof. exact (c_new_text ci). Qed.

Lemma c_new_reads_text_witness :
  Assembler.c_new (Assembler.c_instruction_text (Assembler.mkC "D+M" (Some "AM") (Some "JMP"))) =
  Done (Assembler.mkC "D+M" (Some "AM") (Some "JMP")).
Proof.
  apply (c_new_reads_text (Assembler.mkC "D+M" (Some "AM") (Some "JMP")));
    [reflexivity|reflexivity|intros d [= <-]; split; reflexivity|intros j [= <-]; split; reflexivity].
Defined.

Module TokenizerProofs.
Import Tokenizer.

Local Abbreviation stash_ok := (fun c : ascii =>
  is_whitespace c = false /\ c <> QUOTE /\ (is_symbol c = false \/ c = "/"%char)).

Lemma ascii_eqb_false_neq (a b : ascii) : Ascii.eqb a b = false -> a <> b.
Proof. intros H ->. rewrite Ascii.eqb_refl in H. discriminate. Qed.

Lemma uint_digits_range (max acc : Z) (s : string) (v : Z) :
  (0 <= acc <= max)%Z -> uint_digits max acc s = Some v -> (0 <= v <= max)%Z.
Proof.
  revert acc; induction s as [|c s IH]; intros acc Hacc H; simpl in H.
  - injection H as <-; exact Hacc.
  - destruct (is_ascii_digit c) eqn:Hc; [|discriminate].
    pose proof (digit_value_range c Hc).
    destruct (Z.leb_spec (acc * 10 + digit_value c) max); [|discriminate].
    eapply IH; [|exact H]; lia.
Qed.

Lemma parse_unsigned_range (max : Z) (s : string) (v : Z) :
  (0 <= max)%Z -> parse_unsigned max s = Some v -> (0 <= v <= max)%Z.
Proof.
  intros Hm.
  destruct (parse_unsigned_cases max s) as [E|[E|(r & _ & E)]]; rewrite E; intros H;
    [eapply uint_digits_range; [|exact H]; lia | discriminate
    | eapply uint_digits_range; [|exact H]; lia].
Qed.

Lemma is_symbol_in (c : ascii) : is_symbol c = true -> In c SYMBOL_LIST.
Proof.
  unfold is_symbol. intros H. apply existsb_exists in H as (x & Hx & E).
  apply Ascii.eqb_eq in E. subst. exact Hx.
Qed.

Lemma is_keyword_in (w : string) : is_keyword w = true -> In w KEYWORD_LIST.
Proof.
  unfold is_keyword. intros H. apply existsb_exists in H as (x & Hx & E).
  apply String.eqb_eq in E. subst. exact Hx.
Qed.

Lemma extract_token_wf (stash : list ascii) (t : Token) :
  stash <> [] -> Forall stash_ok stash -> extract_token_unwrap stash = Done t -> token_wf t.
Proof.
  intros Hne HF. unfold extract_token_unwrap, extract_token.
  destruct stash as [|s0 rest]; [congruence|].
  destruct (Nat.eqb (length (s0 :: rest)) 1 && is_symbol s0)%bool eqn:E1.
  { simpl. intros H. injection H as <-. apply andb_prop in E1 as [_ E1].
    exact (is_symbol_in s0 E1). }
  destruct (is_ascii_digit s0) eqn:E2.
  { destruct (parse_u16 (string_of_list_ascii (s0 :: rest))) eqn:E3; simpl; [|discriminate].
    intros H. injection H as <-. simpl.
    eapply parse_unsigned_range; [|exact E3]; lia. }
  destruct (is_keyword (string_of_list_ascii (s0 :: rest))) eqn:E4.
  { simpl. intros H. injection H as <-. exact (is_keyword_in _ E4). }
  simpl. intros H. injection H as <-. simpl.
  split; [discriminate|]. split; [exact E4|]. split.
  - intros c r Hw. injection Hw as <- _. exact E2.
  - change (String s0 (string_of_list_ascii rest)) with (string_of_list_ascii (s0 :: rest)).
    rewrite list_ascii_of_string_of_list_ascii. exact HF.
Qed.

Lemma flush_wf (stash : list ascii) (tokens tokens' : list Token) :
  Forall token_wf tokens -> Forall stash_ok stash ->
  flush stash tokens = Done tokens' -> Forall token_wf tokens'.
Proof.
  intros Ht Hs. destruct stash as [|c stash]; simpl.
  - intros H. injection H as <-. exact Ht.
  - destruct (extract_token_unwrap (c :: stash)) as [t|] eqn:E; simpl; [|discriminate].
    intros H. injection H as <-. apply Forall_app; split; [exact Ht|].
    constructor; [|constructor]. eapply extract_token_wf; [| |exact E]; [discriminate|exact Hs].
Qed.

(** The invariant of the character loop: the stash never holds a double
    quote, and outside a string constant it only holds characters that
    [extract_token] may see. *)
Lemma parse_chars_wf (cs : list ascii) :
  forall ctx tokens ts ctx',
  Forall token_wf tokens ->
  Forall (fun c => c <> QUOTE) (char_stash ctx) ->
  (in_string ctx = false -> Forall stash_ok (char_stash ctx)) ->
  parse_chars cs ctx tokens = Done (ts, ctx') -> Forall token_wf ts.
Proof.
  induction cs as [|c cs IH]; intros [cm in_str stash] tokens ts ctx' Ht Hq Hs H;
    simpl in H, Hq, Hs.
  { injection H as <- _. exact Ht. }
  destruct in_str.
  - destruct (Ascii.eqb c QUOTE) eqn:Ec.
    + eapply IH; [| | |exact H]; simpl.
      * apply Forall_app; split; [exact Ht|]. constructor; [|constructor]. simpl.
        rewrite list_ascii_of_string_of_list_ascii. intros Hin.
        rewrite List.Forall_forall in Hq. exact (Hq _ Hin eq_refl).
      * constructor.
      * intros _; constructor.
    + eapply IH; [| | |exact H]; [exact Ht| |discriminate]; simpl.
      apply Forall_app; split; [exact Hq|]. constructor; [|constructor].
      exact (ascii_eqb_false_neq _ _ Ec).
  - specialize (Hs eq_refl).
    destruct (update_comment_state cm c) as [ret cm'] eqn:U. destruct ret.
    { injection H as <- _. exact Ht. }
    destruct (in_region cm').
    { eapply IH; [| | |exact H]; [exact Ht|constructor|intros; constructor]. }
    destruct (is_whitespace c) eqn:Ew.
    { destruct (flush stash tokens) as [tokens'|] eqn:F; simpl in H; [|discriminate].
      eapply IH; [| | |exact H]; [eapply flush_wf; eauto|constructor|intros; constructor]. }
    destruct (Ascii.eqb c QUOTE) eqn:Eq.
    { eapply IH; [| | |exact H]; [exact Ht|exact Hq|discriminate]. }
    pose proof (ascii_eqb_false_neq _ _ Eq) as Nq.
    destruct (is_symbol c) eqn:Es; [destruct (Ascii.eqb c "/") eqn:Esl|].
    + eapply IH; [| | |exact H]; [exact Ht| | ]; simpl.
      * apply Forall_app; split; [exact Hq|constructor; [exact Nq|constructor]].
      * intros _. apply Forall_app; split; [exact Hs|].
        constructor; [|constructor]. apply Ascii.eqb_eq in Esl. auto.
    + destruct (flush stash tokens) as [tokens'|] eqn:F; simpl in H; [|discriminate].
      eapply IH; [| | |exact H]; [|constructor|intros; constructor].
      apply Forall_app; split; [eapply flush_wf; eauto|].
      constructor; [exact (is_symbol_in c Es)|constructor].
    + eapply IH; [| | |exact H]; [exact Ht| | ]; simpl.
      * apply Forall_app; split; [exact Hq|constructor; [exact Nq|constructor]].
      * intros _. apply Forall_app; split; [exact Hs|]. constructor; [|constructor]. auto.
Qed.

Lemma parse_line_wf (b : bool) (l : string) (ts : list Token) (b' : bool) :
  parse_line b l = Done (ts, b') -> Forall token_wf ts.
Proof.
  unfold parse_line.
  destruct (parse_chars _ _ _) as [[ts0 ctx]|] eqn:E; simpl; [|discriminate].
  intros H. injection H as <- _.
  eapply parse_chars_wf; [| | |exact E]; [constructor|constructor|intros; constructor].
Qed.

Lemma generate_from_wf (lines : list string) :
  forall b ts, generate_from b lines = Done ts -> Forall token_wf ts.
Proof.
  induction lines as [|l lines IH]; intros b ts H; simpl in H.
  { injection H as <-. constructor. }
  destruct (parse_line b l) as [[ts1 b1]|] eqn:E; simpl in H; [|discriminate].
  destruct (generate_from b1 lines) as [rest|] eqn:E2; simpl in H; [|discriminate].
  injection H as <-. apply Forall_app; split; [eapply parse_line_wf; eauto|eapply IH; eauto].
Qed.

Lemma keyword_list_keyword (w : string) :
  In w KEYWORD_LIST <-> exists k, Keyword_keyword w = Done k.
Proof.
  split.
  - intros H. repeat (destruct H as [<-|H]; [eexists; reflexivity|]). destruct H.
  - unfold Keyword_keyword.
    repeat match goal with
      | |- context [String.eqb w ?x] =>
          let E := fresh "E" in destruct (String.eqb w x) eqn:E;
          [apply String.eqb_eq in E; subst; intros _; simpl; tauto|]
      end.
    intros [k H]; discriminate.
Qed.

Lemma parse_chars_app_panic (xs ys : list ascii) :
  forall ctx tokens, parse_chars xs ctx tokens = Panic -> parse_chars (xs ++ ys) ctx tokens = Panic.
Proof.
  induction xs as [|c xs IH]; intros [cm in_str stash] tokens H; simpl in H |- *; [discriminate|].
  destruct in_str.
  { destruct (Ascii.eqb c QUOTE); apply IH; exact H. }
  destruct (update_comment_state cm c) as [[|] cm']; [discriminate|].
  destruct (in_region cm'); [apply IH; exact H|].
  destruct (is_whitespace c).
  { destruct (flush stash tokens); simpl in H |- *; [apply IH; exact H|reflexivity]. }
  destruct (Ascii.eqb c QUOTE); [apply IH; exact H|].
  destruct (is_symbol c); [destruct (Ascii.eqb c "/")|]; [apply IH; exact H| |apply IH; exact H].
  destruct (flush stash tokens); simpl in H |- *; [apply IH; exact H|reflexivity].
Qed.

(** Running the loop on [xs ++ ys] is running it on [xs], then on [ys]
    from where it stopped, unless [xs] ended in a line comment. *)
Lemma parse_chars_app (xs ys : list ascii) :
  forall ctx tokens ts ctx', parse_chars xs ctx tokens = Done (ts, ctx') ->
  parse_chars (xs ++ ys) ctx tokens = Done (ts, ctx') \/
  parse_chars (xs ++ ys) ctx tokens = parse_chars ys ctx' ts.
Proof.
  induction xs as [|c xs IH]; intros [cm in_str stash] tokens ts ctx' H; simpl in H |- *.
  { injection H as <- <-. right; reflexivity. }
  destruct in_str.
  { destruct (Ascii.eqb c QUOTE); apply IH; exact H. }
  destruct (update_comment_state cm c) as [[|] cm']; [left; exact H|].
  destruct (in_region cm'); [apply IH; exact H|].
  destruct (is_whitespace c).
  { destruct (flush stash tokens); simpl in H |- *; [apply IH; exact H|discriminate]. }
  destruct (Ascii.eqb c QUOTE); [apply IH; exact H|].
  destruct (is_symbol c); [destruct (Ascii.eqb c "/")|]; [apply IH; exact H| |apply IH; exact H].
  destruct (flush stash tokens); simpl in H |- *; [apply IH; exact H|discriminate].
Qed.

(** A run of characters that are neither whitespace, nor a double quote,
    nor a symbol only grows the stash (or is skipped inside a block
    comment): no token is produced and the block-comment flag is kept. *)
Lemma parse_chars_word (ys : list ascii) :
  Forall (fun c => is_whitespace c = false /\ c <> QUOTE /\ is_symbol c = false) ys ->
  forall ctx tokens, exists ctx',
  parse_chars ys ctx tokens = Done (tokens, ctx') /\
  in_region (comment ctx') = in_region (comment ctx).
Proof.
  induction 1 as [|c ys (Hw & Hq & Hs) _ IH]; intros [cm in_str stash] tokens.
  { exists (mkLC cm in_str stash). split; reflexivity. }
  simpl.
  assert (Eq : Ascii.eqb c QUOTE = false) by (apply Ascii.eqb_neq; exact Hq).
  rewrite Eq.
  destruct in_str; [apply IH|].
  assert (Esl : Ascii.eqb c "/" = false).
  { destruct (Ascii.eqb c "/") eqn:E; [|reflexivity].
    apply Ascii.eqb_eq in E; subst; discriminate. }
  assert (Est : Ascii.eqb c "*" = false).
  { destruct (Ascii.eqb c "*") eqn:E; [|reflexivity].
    apply Ascii.eqb_eq in E; subst; discriminate. }
  destruct cm as [r lb rb re]. cbn [update_comment_state]. rewrite Esl, Est.
  destruct r; cbn [in_region].
  - apply IH.
  - rewrite Hw, Hs. apply IH.
Qed.

Lemma parse_chars_no_quote (xs : list ascii) :
  Forall (fun c => c <> QUOTE) xs ->
  forall ctx tokens ts ctx', in_string ctx = false ->
  parse_chars xs ctx tokens = Done (ts, ctx') -> in_string ctx' = false.
Proof.
  induction 1 as [|c xs Hq _ IH]; intros [cm in_str stash] tokens ts ctx' Hs H;
    simpl in Hs, H; subst in_str.
  { injection H as _ <-. reflexivity. }
  assert (Eq : Ascii.eqb c QUOTE = false) by (apply Ascii.eqb_neq; exact Hq).
  destruct (update_comment_state cm c) as [[|] cm'].
  { injection H as _ <-. reflexivity. }
  destruct (in_region cm'); [eapply IH; [|exact H]; reflexivity|].
  destruct (is_whitespace c).
  { destruct (flush stash tokens); simpl in H; [|discriminate]. eapply IH; [|exact H]; reflexivity. }
  rewrite Eq in H.
  destruct (is_symbol c); [destruct (Ascii.eqb c "/")|];
    [eapply IH; [|exact H]; reflexivity| |eapply IH; [|exact H]; reflexivity].
  destruct (flush stash tokens); simpl in H; [|discriminate]. eapply IH; [|exact H]; reflexivity.
Qed.

(** ** Extra properties of the tokenizer *)

(** Every token [generate_token_list] produces is well formed: a keyword is
    one of [KEYWORD_LIST], a symbol one of [SYMBOL_LIST], an integer
    constant lies in [0, 65535], a string constant holds no double quote, and
    an identifier is a non-empty non-keyword that does not start with a digit
    and holds no whitespace, no double quote and no symbol other than [/]. *)
Theorem generated_tokens_well_formed (lines : list string) (ts : list Token) :
  generate_token_list lines = Done ts -> Forall token_wf ts.
Proof. apply generate_from_wf. Qed.

Lemma generated_tokens_well_formed_witness :
  generate_token_list ["class Main {"; "  function void main() { // entry"; "    var int x;";
                       "    let x = 42 / 7;"; "    return; }"; "}"] =
    Done [Keyword "class"; Identifier "Main"; Symbol "{"; Keyword "function";
          Keyword "void"; Identifier "main"; Symbol "("; Symbol ")"; Symbol "{";
          Keyword "var"; Keyword "int"; Identifier "x"; Symbol ";"; Keyword "let";
          Identifier "x"; Symbol "="; IntegerConstant 42; Symbol "/";
          IntegerConstant 7; Symbol ";"; Keyword "return"; Symbol ";"; Symbol "}";
          Symbol "}"] /\
  Forall token_wf
    [Keyword "class"; Identifier "Main"; Symbol "{"; Keyword "function";
     Keyword "void"; Identifier "main"; Symbol "("; Symbol ")"; Symbol "{";
     Keyword "var"; Keyword "int"; Identifier "x"; Symbol ";"; Keyword "let";
     Identifier "x"; Symbol "="; IntegerConstant 42; Symbol "/";
     IntegerConstant 7; Symbol ";"; Keyword "return"; Symbol ";"; Symbol "}";
     Symbol "}"].
Proof.
  split; [vm_compute; reflexivity|].
  apply (generated_tokens_well_formed
           ["class Main {"; "  function void main() { // entry"; "    var int x;";
            "    let x = 42 / 7;"; "    return; }"; "}"]).
  vm_compute; reflexivity.
Defined.

(** [Keyword::keyword] returns a keyword type exactly for the words of
    [KEYWORD_LIST] and panics on every other word. *)
Theorem keyword_defined_on_keyword_list (w : string) :
  (exists k, Keyword_keyword w = Done k) <-> In w KEYWORD_LIST.
Proof. symmetry. apply keyword_list_keyword. Qed.

(** Hence [Keyword::keyword] never panics on a keyword token produced by
    [generate_token_list]. *)
Theorem generated_keywords_have_type (lines : list string) (ts : list Token) (w : string) :
  generate_token_list lines = Done ts -> In (Keyword w) ts ->
  exists k, Keyword_keyword w = Done k.
Proof.
  intros H Hin. apply keyword_list_keyword.
  apply generate_from_wf in H. rewrite List.Forall_forall in H.
  exact (H _ Hin).
Qed.

Lemma generated_keywords_have_type_witness :
  exists k, Keyword_keyword "while" = Done k.
Proof.
  apply (generated_keywords_have_type ["while (x) {"] [Keyword "while"; Symbol "(";
           Identifier "x"; Symbol ")"; Symbol "{"] "while");
    [vm_compute; reflexivity | left; reflexivity].
Defined.

(** A word (letters, digits, [_] and the like) at the very end of a line is
    never emitted: the stash is only flushed by whitespace or a symbol, and
    [parse_line] drops what is left in it when the line ends. *)
Theorem trailing_word_dropped (b : bool) (l w : string) :
  Forall (fun c => is_whitespace c = false /\ c <> QUOTE /\ is_symbol c = false)
         (list_ascii_of_string w) ->
  parse_line b (l ++ w) = parse_line b l.
Proof.
  intros Hw. unfold parse_line. rewrite list_ascii_of_string_app.
  destruct (parse_chars (list_ascii_of_string l) _ []) as [[ts ctx]|] eqn:E.
  - destruct (parse_chars_app _ (list_ascii_of_string w) _ _ _ _ E) as [->| ->];
      [reflexivity|].
    destruct (parse_chars_word _ Hw ctx ts) as (ctx' & -> & Hr).
    simpl. rewrite Hr. reflexivity.
  - rewrite (parse_chars_app_panic _ _ _ _ E). reflexivity.
Qed.

Lemma trailing_word_dropped_witness :
  parse_line false ("let x = y" ++ "z") = parse_line false "let x = y" /\
  parse_line false "let x = y" = Done ([Keyword "let"; Identifier "x"; Symbol "="], false).
Proof.
  split; [|vm_compute; reflexivity].
  apply trailing_word_dropped. vm_compute. repeat constructor; discriminate.
Defined.

(** Appending a line comment to a line that holds no double quote and does
    not end inside a block comment changes neither its tokens nor the
    block-comment flag passed to the next line. *)
Theorem trailing_line_comment (b : bool) (l r : string) (ts : list Token) :
  ~ In QUOTE (list_ascii_of_string l) ->
  parse_line b l = Done (ts, false) ->
  parse_line b (l ++ "//" ++ r) = Done (ts, false).
Proof.
  intros Hq H. unfold parse_line in H |- *. rewrite list_ascii_of_string_app.
  destruct (parse_chars (list_ascii_of_string l) _ []) as [[ts0 ctx]|] eqn:E; [|discriminate H].
  cbn [bind_out] in H. injection H as <- Hr.
  assert (Hs : in_string ctx = false).
  { eapply parse_chars_no_quote; [| |exact E]; [|reflexivity].
    apply List.Forall_forall. intros c Hc ->. exact (Hq Hc). }
  destruct (parse_chars_app _ (list_ascii_of_string ("//" ++ r)) _ _ _ _ E) as [->| ->];
    cbn [bind_out]; [rewrite Hr; reflexivity|].
  destruct ctx as [[rg lb rb re] s stash]; simpl in Hr, Hs; subst rg s.
  destruct lb; reflexivity.
Qed.

Lemma trailing_line_comment_witness :
  parse_line false ("let x = y;" ++ "//" ++ " note") = Done ([Keyword "let"; Identifier "x";
    Symbol "="; Identifier "y"; Symbol ";"], false).
Proof.
  apply trailing_line_comment; [vm_compute; intros H; repeat (destruct H as [H|H]; [discriminate|]); exact H
                               | vm_compute; reflexivity].
Defined.

End TokenizerProofs.

Module SymbolTableProofs.
Import Tokenizer Parser.

Lemma var_type_to_symbol_type_cases (tk : Token) (st : SymbolType) :
  var_type_to_symbol_type tk = Done st <->
  (exists id, tk = Identifier id /\ st = SClass id) \/
  (tk = Keyword "int" /\ st = SInt) \/
  (tk = Keyword "char" /\ st = SChar) \/
  (tk = Keyword "boolean" /\ st = SBoolean).
Proof.
  split.
  - destruct tk as [k|c|id|v|s]; simpl; try discriminate.
    + unfold Keyword_keyword.
      repeat match goal with
        | |- context [String.eqb k ?x] =>
            let E := fresh "E" in destruct (String.eqb k x) eqn:E;
            [apply String.eqb_eq in E; subst; simpl; intros H;
             first [discriminate H
                   | injection H as <-;
                     first [right; left; split; reflexivity
                           | right; right; left; split; reflexivity
                           | right; right; right; split; reflexivity]]|]
        end.
      simpl; discriminate.
    + intros H. injection H as <-. left. eexists; split; reflexivity.
  - intros [(id & -> & ->)|[[-> ->]|[[-> ->]|[-> ->]]]]; reflexivity.
Qed.

Lemma declare_vars_spec (names : list string) :
  forall (t : MethodSymbolTable) (var_type : Token) (ty : SymbolType),
  var_type_to_symbol_type var_type = Done ty -> NoDup names ->
  exists t', declare_vars t names var_type = Done t' /\
  (forall k v, names !! k = Some v ->
     method_table t' !! v = Some (mkEntry Var ty (var_count t + k))) /\
  (forall v, v ∉ names -> method_table t' !! v = method_table t !! v) /\
  var_count t' = var_count t + length names /\
  argument_count t' = argument_count t.
Proof.
  induction names as [|v0 vs IH]; intros t var_type ty Hty Hnd.
  { exists t. split; [reflexivity|]. split; [intros k v Hk; discriminate Hk|].
    split; [reflexivity|]. simpl; split; [lia|reflexivity]. }
  apply NoDup_cons in Hnd as [Hv0 Hnd].
  simpl. rewrite Hty. simpl.
  destruct (IH (mkMethodTable (<[v0 := mkEntry Var ty (var_count t)]> (method_table t))
                  (argument_count t) (S (var_count t))) var_type ty Hty Hnd)
    as (t' & Ht' & Hidx & Hsame & Hvc & Hac).
  exists t'. split; [exact Ht'|]. simpl in Hidx, Hsame, Hvc, Hac.
  split; [|split; [|split]].
  - intros [|k] v Hk; simpl in Hk.
    + injection Hk as <-. rewrite (Hsame v0 Hv0), lookup_insert_eq, Nat.add_0_r. reflexivity.
    + rewrite (Hidx k v Hk). do 3 f_equal. lia.
  - intros v Hv. apply not_elem_of_cons in Hv as [Hne Hv].
    rewrite (Hsame v Hv). apply lookup_insert_ne. congruence.
  - simpl. lia.
  - exact Hac.
Qed.

Lemma declare_params_spec (names : list string) :
  forall (t : MethodSymbolTable) (param_types : list Token),
  Forall (fun ty => exists st, var_type_to_symbol_type ty = Done st) param_types ->
  length names <= length param_types -> NoDup names ->
  exists t', declare_params t names param_types = Done t' /\
  (forall k v ty, names !! k = Some v -> param_types !! k = Some ty ->
     exists st, var_type_to_symbol_type ty = Done st /\
     method_table t' !! v = Some (mkEntry Argument st (argument_count t + k))) /\
  (forall v, v ∉ names -> method_table t' !! v = method_table t !! v) /\
  argument_count t' = argument_count t + length names /\
  var_count t' = var_count t.
Proof.
  induction names as [|v0 vs IH]; intros t param_types Hty Hlen Hnd.
  { exists t. split; [reflexivity|]. split; [intros k v ty Hk; discriminate Hk|].
    split; [reflexivity|]. simpl; split; [lia|reflexivity]. }
  destruct param_types as [|ty0 tys]; [simpl in Hlen; lia|].
  apply NoDup_cons in Hnd as [Hv0 Hnd].
  inversion Hty as [|? ? [st0 Hst0] Htys]; subst.
  simpl. rewrite Hst0. simpl.
  destruct (IH (mkMethodTable (<[v0 := mkEntry Argument st0 (argument_count t)]> (method_table t))
                  (S (argument_count t)) (var_count t)) tys Htys ltac:(simpl in Hlen; lia) Hnd)
    as (t' & Ht' & Hidx & Hsame & Hac & Hvc).
  exists t'. split; [exact Ht'|]. simpl in Hidx, Hsame, Hvc, Hac.
  split; [|split; [|split]].
  - intros [|k] v ty Hk Hk'; simpl in Hk, Hk'.
    + injection Hk as <-. injection Hk' as <-. exists st0. split; [exact Hst0|].
      rewrite (Hsame v0 Hv0), lookup_insert_eq, Nat.add_0_r. reflexivity.
    + destruct (Hidx k v ty Hk Hk') as (st & Hst & Hl). exists st. split; [exact Hst|].
      rewrite Hl. do 3 f_equal. lia.
  - intros v Hv. apply not_elem_of_cons in Hv as [Hne Hv].
    rewrite (Hsame v Hv). apply lookup_insert_ne. congruence.
  - simpl. lia.
  - exact Hvc.
Qed.

(** ** Extra properties of the symbol tables *)

(** [var_type_to_symbol_type] accepts exactly an identifier (a class type)
    and the keywords [int], [char] and [boolean]; every other token,
    [void] included, panics. *)
Theorem var_type_to_symbol_type_accepts (tk : Token) (st : SymbolType) :
  var_type_to_symbol_type tk = Done st <->
  (exists id, tk = Identifier id /\ st = SClass id) \/
  (tk = Keyword "int" /\ st = SInt) \/
  (tk = Keyword "char" /\ st = SChar) \/
  (tk = Keyword "boolean" /\ st = SBoolean).
Proof. apply var_type_to_symbol_type_cases. Qed.

(** [ClassSymbolTable::add_entry]: a [static] or [field] name is bound to
    the current count of its own category, that count grows by one and the
    other stays, and every other name keeps its entry; an [argument] or
    [var] category panics. *)
Theorem class_add_entry_lookup (t : ClassSymbolTable) (name : string)
    (cat : SymbolCategory) (ty : SymbolType) :
  ((cat = Argument \/ cat = Var) -> class_add_entry t name cat ty = Panic) /\
  (forall t', class_add_entry t name cat ty = Done t' ->
     class_table t' !! name =
       Some (mkEntry cat ty (match cat with Static => static_count t | _ => field_count t end)) /\
     (forall n, n <> name -> class_table t' !! n = class_table t !! n) /\
     match cat with
     | Static => static_count t' = S (static_count t) /\ field_count t' = field_count t
     | _ => static_count t' = static_count t /\ field_count t' = S (field_count t)
     end).
Proof.
  split.
  - intros [-> | ->]; reflexivity.
  - intros t' H. destruct cat; simpl in H; try discriminate; injection H as <-; simpl.
    all: split; [apply lookup_insert_eq|].
    all: split; [intros n Hn; apply lookup_insert_ne; congruence|split; reflexivity].
Qed.

Lemma class_add_entry_lookup_witness :
  class_add_entry (mkClassTable ∅ 0 0) "x" Var SInt = Panic /\
  class_table (mkClassTable (<["x" := mkEntry Static SInt 0]> ∅) 1 0) !! "x" =
    Some (mkEntry Static SInt 0).
Proof.
  split.
  - apply (proj1 (class_add_entry_lookup (mkClassTable ∅ 0 0) "x" Var SInt)). right; reflexivity.
  - exact (proj1 (proj2 (class_add_entry_lookup (mkClassTable ∅ 0 0) "x" Static SInt)
                   (mkClassTable (<["x" := mkEntry Static SInt 0]> ∅) 1 0) eq_refl)).
Defined.

(** The [var] loop of [parse_subroutine_body]: for a valid type token, the
    distinct names of a declaration are added without panicking, the [k]-th
    one as local [var_count + k] of that type; other names keep their entry
    (so parameters stay visible), [var_count] grows by the number of names
    and [argument_count] is unchanged. *)
Theorem var_dec_indices (t : MethodSymbolTable) (names : list string) (var_type : Token)
    (ty : SymbolType) :
  var_type_to_symbol_type var_type = Done ty -> NoDup names ->
  exists t', declare_vars t names var_type = Done t' /\
  (forall k v, names !! k = Some v ->
     method_table t' !! v = Some (mkEntry Var ty (var_count t + k))) /\
  (forall v, v ∉ names -> method_table t' !! v = method_table t !! v) /\
  var_count t' = var_count t + length names /\
  argument_count t' = argument_count t.
Proof. apply declare_vars_spec. Qed.

Lemma var_dec_indices_witness :
  exists t', declare_vars (mkMethodTable ∅ 1 2) ["a"; "b"] (Keyword "int") = Done t' /\
  (forall k v, ["a"; "b"] !! k = Some v ->
     method_table t' !! v = Some (mkEntry Var SInt (2 + k))) /\
  (forall v, v ∉ ["a"; "b"] -> method_table t' !! v = (∅ : gmap string SymbolTableEntry) !! v) /\
  var_count t' = 2 + 2 /\ argument_count t' = 1.
Proof.
  apply (var_dec_indices (mkMethodTable ∅ 1 2) ["a"; "b"] (Keyword "int") SInt);
    [reflexivity|].
  repeat constructor; set_solver.
Defined.

(** The parameter loop of [parse_subroutine_dec]: for distinct names with
    at least as many valid type tokens, the [k]-th parameter is added as
    argument [argument_count + k] with the type of the [k]-th type token;
    other names keep their entry, [argument_count] grows by the number of
    names and [var_count] is unchanged. *)
Theorem param_list_indices (t : MethodSymbolTable) (names : list string)
    (param_types : list Token) :
  Forall (fun ty => exists st, var_type_to_symbol_type ty = Done st) param_types ->
  length names <= length param_types -> NoDup names ->
  exists t', declare_params t names param_types = Done t' /\
  (forall k v ty, names !! k = Some v -> param_types !! k = Some ty ->
     exists st, var_type_to_symbol_type ty = Done st /\
     method_table t' !! v = Some (mkEntry Argument st (argument_count t + k))) /\
  (forall v, v ∉ names -> method_table t' !! v = method_table t !! v) /\
  argument_count t' = argument_count t + length names /\
  var_count t' = var_count t.
Proof. apply declare_params_spec. Qed.

Lemma param_list_indices_witness :
  exists t', declare_params (mkMethodTable ∅ 0 0) ["x"; "y"]
               [Keyword "int"; Identifier "Point"] = Done t' /\
  (forall k v ty, ["x"; "y"] !! k = Some v -> [Keyword "int"; Identifier "Point"] !! k = Some ty ->
     exists st, var_type_to_symbol_type ty = Done st /\
     method_table t' !! v = Some (mkEntry Argument st (0 + k))) /\
  (forall v, v ∉ ["x"; "y"] -> method_table t' !! v = (∅ : gmap string SymbolTableEntry) !! v) /\
  argument_count t' = 0 + 2 /\ var_count t' = 0.
Proof.
  apply (param_list_indices (mkMethodTable ∅ 0 0) ["x"; "y"] [Keyword "int"; Identifier "Point"]).
  - repeat constructor; eexists; reflexivity.
  - simpl; lia.
  - repeat constructor; set_solver.
Defined.

End SymbolTableProofs.

Module ExpressionProofs.
Import Tokenizer Parser.

Lemma bind_run_ret {A B} (m : run A) (k : A -> run B) (b : B) :
  mbind k m = Ret b -> exists a, m = Ret a /\ k a = Ret b.
Proof. destruct m; unfold mbind, run_mbind; simpl; intros H; [eauto|discriminate..]. Qed.

Lemma tok_ret (tokens : list Token) (i : nat) (t : Token) :
  tok tokens i = Ret t -> tokens !! i = Some t.
Proof. unfold tok. destruct (tokens !! i); intros H; [injection H as ->; reflexivity|discriminate]. Qed.

Ltac run_inv H :=
  repeat (cbn beta iota in H;
    match type of H with
    | mbind _ _ = Ret _ =>
        let x := fresh "x" in let Hx := fresh "Hx" in
        apply bind_run_ret in H; destruct H as (x & Hx & H)
    | (if ?b then _ else _) = Ret _ => let E := fresh "E" in destruct b eqn:E
    | (match ?x with _ => _ end) = Ret _ => destruct x
    | Ret _ = Ret _ => injection H; clear H; intros; subst
    | Fail _ = Ret _ => discriminate H
    | Crash = Ret _ => discriminate H
    | NoFuel = Ret _ => discriminate H
    end).

(** The indices the three mutually recursive parsers return. *)
Lemma parse_progress (fuel : nat) :
  (forall tokens idx t i, parse_term fuel tokens idx = Ret (t, i) -> idx < i) /\
  (forall tokens idx terms ops e i,
     parse_expression fuel tokens idx terms ops = Ret (e, i) ->
     idx <= i /\ exists s, tokens !! i = Some (Symbol s) /\ is_expression_end s = true) /\
  (forall tokens idx exprs es i,
     parse_expression_list fuel tokens idx exprs = Ret (es, i) ->
     idx <= i /\ tokens !! i = Some (Symbol ")"%char)).
Proof.
  induction fuel as [|f IH].
  { split; [|split]; intros; discriminate. }
  destruct IH as (IHt & IHe & IHl).
  split; [|split].
  - intros tokens idx t i H. cbn [parse_term] in H. run_inv H.
    all: repeat match goal with
      | Hx : parse_term _ _ _ = Ret _ |- _ => apply IHt in Hx
      | Hx : parse_expression _ _ _ _ _ = Ret _ |- _ => apply IHe in Hx as [? _]
      | Hx : parse_expression_list _ _ _ _ = Ret _ |- _ => apply IHl in Hx as [? _]
      end; lia.
  - intros tokens idx terms ops e i H. cbn [parse_expression] in H. run_inv H.
    all: repeat match goal with
      | Hx : parse_term _ _ _ = Ret _ |- _ => apply IHt in Hx
      | Hx : parse_expression _ _ _ _ _ = Ret _ |- _ => apply IHe in Hx as [? (? & ? & ?)]
      | Hx : tok _ _ = Ret _ |- _ => apply tok_ret in Hx
      end.
    all: split; [lia|eexists; split; eassumption].
  - intros tokens idx exprs es i H. cbn [parse_expression_list] in H. run_inv H.
    all: repeat match goal with
      | Hx : parse_expression _ _ _ _ _ = Ret _ |- _ => apply IHe in Hx as [? _]
      | Hx : parse_expression_list _ _ _ _ = Ret _ |- _ => apply IHl in Hx as [? ?]
      | Hx : tok _ _ = Ret _ |- _ => apply tok_ret in Hx
      | Hx : Ascii.eqb _ ")" = true |- _ => apply Ascii.eqb_eq in Hx; subst
      end.
    all: split; [lia|assumption].
Qed.

(** ** Extra properties of the expression parser *)

(** A successful [parse_term] always consumes at least one token. *)
Theorem parse_term_advances (fuel : nat) (tokens : list Token) (idx : nat) (t : Term) (i : nat) :
  parse_term fuel tokens idx = Ret (t, i) -> idx < i.
Proof. apply (proj1 (parse_progress fuel)). Qed.

Lemma parse_term_advances_witness :
  parse_term 5 [Identifier "a"; Symbol "["; Identifier "i"; Symbol "]"; Symbol ";"] 0 =
    Ret (ArrayVar "a" (Expr [VarName "i"] []), 4) /\ 0 < 4.
Proof.
  split; [vm_compute; reflexivity|].
  apply (parse_term_advances 5 [Identifier "a"; Symbol "["; Identifier "i"; Symbol "]"; Symbol ";"]
           0 (ArrayVar "a" (Expr [VarName "i"] []))).
  vm_compute; reflexivity.
Defined.

(** A successful [parse_expression] returns an index at or after its start
    that holds one of the end symbols [)], []], [;] or [,]: the caller's
    check of the closing token always reads a symbol. *)
Theorem parse_expression_stops_at_end (fuel : nat) (tokens : list Token) (idx : nat)
    (terms : list Term) (ops : list ascii) (e : Expression) (i : nat) :
  parse_expression fuel tokens idx terms ops = Ret (e, i) ->
  idx <= i /\ exists s, tokens !! i = Some (Symbol s) /\ is_expression_end s = true.
Proof. apply (proj1 (proj2 (parse_progress fuel))). Qed.

Lemma parse_expression_stops_at_end_witness :
  parse_expression 10 [Identifier "x"; Symbol "+"; IntegerConstant 2; Symbol ";"] 0 [] [] =
    Ret (Expr [VarName "x"; Integer 2] ["+"%char], 3) /\
  0 <= 3 /\ exists s, [Identifier "x"; Symbol "+"; IntegerConstant 2; Symbol ";"] !! 3 = Some (Symbol s) /\
                      is_expression_end s = true.
Proof.
  split; [vm_compute; reflexivity|].
  apply (parse_expression_stops_at_end 10 [Identifier "x"; Symbol "+"; IntegerConstant 2; Symbol ";"]
           0 [] [] (Expr [VarName "x"; Integer 2] ["+"%char])).
  vm_compute; reflexivity.
Defined.

(** A successful [parse_expression_list] returns the index of a [)] token,
    at or after its start: the [')'] check that [parse_subroutine_call]
    and [parse_term] make after it never fails. *)
Theorem parse_expression_list_stops_at_paren (fuel : nat) (tokens : list Token) (idx : nat)
    (exprs es : list Expression) (i : nat) :
  parse_expression_list fuel tokens idx exprs = Ret (es, i) ->
  idx <= i /\ tokens !! i = Some (Symbol ")"%char).
Proof. apply (proj2 (proj2 (parse_progress fuel))). Qed.

Lemma parse_expression_list_stops_at_paren_witness :
  parse_expression_list 10 [IntegerConstant 1; Symbol ","; Identifier "y"; Symbol ")"] 0 [] =
    Ret ([Expr [Integer 1] []; Expr [VarName "y"] []], 3) /\
  0 <= 3 /\ [IntegerConstant 1; Symbol ","; Identifier "y"; Symbol ")"] !! 3 = Some (Symbol ")"%char).
Proof.
  split; [vm_compute; reflexivity|].
  apply (parse_expression_list_stops_at_paren 10
           [IntegerConstant 1; Symbol ","; Identifier "y"; Symbol ")"] 0 []
           [Expr [Integer 1] []; Expr [VarName "y"] []]).
  vm_compute; reflexivity.
Defined.

End ExpressionProofs.
